(** * Battle-snakes: the snake core ([snake.py])

    A shallow embedding of the creature aggregate of [snake.py]: the
    segment arrangement resolver [get_arrangement], the two movement
    states, and the methods of [Snake] ([take_damage], [update], [move],
    [draw], the clamping setters, [respawn], item access), and the state
    machine base class of [fsm.py].

    Conventions.
    - Grid cells and vectors are pairs of integers ([Z * Z]).
    - The numbers of the creature (speed, timers, [delta_time]) are
      Python floats.  The creature is written over an arithmetic
      [Arith] that provides the operations it uses on them.  [binary64]
      is the arithmetic of Python's [float]: IEEE 754 double precision,
      rounded to nearest even, with Rocq's primitive floats; every
      general theorem about a frame holds of it, and the concrete
      creatures of the examples run in it.  [rational] is the exact
      arithmetic of the rational numbers; it is used only where a
      property is about the order of the real numbers (the bounds of
      the speed).  A Python [int] that stands where a float is expected
      (the literals [0] and [5]) is the float of the same value.
    - A Python exception is a [Raise] result; the exception classes that
      the modelled code can raise are listed in [exn].
    - The constants of [settings], the arena ([tilemap], [game.toroidal])
      and [utils.normalize] are not part of the modelled file: they are
      taken as parameters. *)

From Stdlib Require Import PrimFloat.
From Stdlib Require Uint63.
From Stdlib Require Import ZArith QArith List Bool Lia Lqa.
Import ListNotations.

#[local] Set Warnings "-inexact-float".

Local Open Scope Z_scope.

(** ** Exceptions and results *)

Inductive exn : Type :=
| IndexError
| KeyError
| ZeroDivisionError
| TypeError.

Inductive result (A : Type) : Type :=
| Ok (a : A)
| Raise (e : exn).

Arguments Ok {A} a.
Arguments Raise {A} e.

Definition bind {A B : Type} (r : result A) (k : A -> result B) : result B :=
  match r with
  | Ok a => k a
  | Raise e => Raise e
  end.

Notation "x <- r ;; k" := (bind r (fun x => k))
  (at level 61, r at next level, right associativity).

(** ** Python lists *)

(** [l[i]] with Python's negative indices; [IndexError] out of range. *)
Definition py_index {A : Type} (l : list A) (i : Z) : result A :=
  let n := Z.of_nat (length l) in
  let j := if i <? 0 then i + n else i in
  if (j <? 0) || (n <=? j) then Raise IndexError
  else match nth_error l (Z.to_nat j) with
       | Some x => Ok x
       | None => Raise IndexError
       end.

(** [l.pop()]: drops the last element; [IndexError] on the empty list.
    Only the remaining list is kept, the callers discard the popped cell. *)
Definition pop {A : Type} (l : list A) : result (list A) :=
  match l with
  | [] => Raise IndexError
  | _ :: _ => Ok (removelast l)
  end.

(** [l[0] = v]; [IndexError] on the empty list. *)
Definition set_first {A : Type} (l : list A) (v : A) : result (list A) :=
  match l with
  | [] => Raise IndexError
  | _ :: t => Ok (v :: t)
  end.

(** A Python dict with a fixed content, in insertion order. *)
Fixpoint dict_get {K V : Type} (eqb : K -> K -> bool)
         (d : list (K * V)) (k : K) : result V :=
  match d with
  | [] => Raise KeyError
  | (k', v) :: d' => if eqb k' k then Ok v else dict_get eqb d' k
  end.

(** ** Vectors ([utils]) *)

Definition vec : Type := (Z * Z)%type.

Definition vec_eqb (u v : vec) : bool :=
  (fst u =? fst v) && (snd u =? snd v).

(** Modelled from the spec: [utils.add_vecs] is missing from the sources;
    the spec lists it as plain vector addition. *)
Definition add_vecs (u v : vec) : vec := (fst u + fst v, snd u + snd v).

(** Modelled from the spec: [utils.sub_vecs] is missing from the sources;
    the spec lists it as plain vector subtraction ([ba = a - b]). *)
Definition sub_vecs (u v : vec) : vec := (fst u - fst v, snd u - snd v).

(** Modelled from the spec: [utils.m_distance] is missing from the sources;
    the spec names it the Manhattan distance. *)
Definition m_distance (u v : vec) : Z :=
  Z.abs (fst u - fst v) + Z.abs (snd u - snd v).

(** Modelled from the spec: [utils.normalize] is missing from the sources;
    the spec says it turns a vector into a unit step.  This componentwise
    sign is used only to instantiate the [normalize] parameter in the
    concrete examples; every general theorem holds for any [normalize]. *)
Definition sign_normalize (v : vec) : vec := (Z.sgn (fst v), Z.sgn (snd v)).

(** ** Directions, flags and sprite regions *)

Definition RIGHT : vec := (1, 0).
Definition LEFT : vec := (-1, 0).
Definition UP : vec := (0, -1).
Definition DOWN : vec := (0, 1).

Module Dir.
Definition N : Z := 1.
Definition E : Z := 2.
Definition S : Z := 4.
Definition W : Z := 8.
Definition SE : Z := S + E.
Definition SW : Z := S + W.
Definition NE : Z := N + E.
Definition NW : Z := N + W.
End Dir.

Definition STRAIGHT : Z := 16.
Definition VERTICAL : Z := 32.

Definition VEC_TO_DIRFLAG : list (vec * Z) :=
  [((0, -1), Dir.N); ((1, 0), Dir.E); ((0, 1), Dir.S); ((-1, 0), Dir.W)].

Record Rect : Type := mkRect { rx : Z; ry : Z; rw : Z; rh : Z }.

Definition STRAIGHT1_V : Rect := mkRect 20 20 10 10.
Definition STRAIGHT1_H : Rect := mkRect 20 30 10 10.
Definition STRAIGHT2_V : Rect := mkRect 30 20 10 10.
Definition STRAIGHT2_H : Rect := mkRect 30 30 10 10.

Definition HEAD : list (Z * Rect) :=
  [(Dir.N, mkRect 0 0 10 10); (Dir.S, mkRect 10 10 10 10);
   (Dir.E, mkRect 10 0 10 10); (Dir.W, mkRect 0 10 10 10)].

Definition TAIL : list (Z * Rect) :=
  [(Dir.N, mkRect 20 0 10 10); (Dir.S, mkRect 30 10 10 10);
   (Dir.E, mkRect 30 0 10 10); (Dir.W, mkRect 20 10 10 10)].

Definition TURN : list (Z * Rect) :=
  [(Dir.SE, mkRect 0 20 10 10); (Dir.SW, mkRect 10 20 10 10);
   (Dir.NE, mkRect 0 30 10 10); (Dir.NW, mkRect 10 30 10 10)].

Definition dirflag (v : vec) : result Z := dict_get vec_eqb VEC_TO_DIRFLAG v.

(** ** The arena *)

Record Tilemap : Type := mkTilemap {
  on_edge : vec -> bool;
  portals : list vec       (* the keys of [tilemap.portals], in order *)
}.

Record Game : Type := mkGame {
  toroidal : vec -> vec;
  tilemap : Tilemap
}.

(** The portal scan of [get_arrangement]: the first portal one step
    away from [b], or [None]. *)
Definition next_portal (tm : Tilemap) (b : vec) : option vec :=
  find (fun portal => m_distance portal b =? 1) (portals tm).

(** ** The segment arrangement resolver *)

Section Resolver.

Variable normalize : vec -> vec.

(** The [if ba_apart:] block: the effective neighbour [a] and the
    vector [ba]. *)
Definition resolve_a (tm : Tilemap) (a b : vec) : vec * vec :=
  let ba := sub_vecs a b in
  if 1 <? m_distance a b then
    let ba := if on_edge tm a then normalize ba else ba in
    match next_portal tm b with
    | Some p => (p, sub_vecs p b)
    | None => (a, ba)
    end
  else (a, ba).

(** The [if bc_apart:] block.  The edge flag it reads is the one that
    was computed for [a] ([a_on_edge]), before any portal replaced [a]. *)
Definition resolve_c (tm : Tilemap) (a b c : vec) : vec * vec :=
  let bc := sub_vecs c b in
  if 1 <? m_distance c b then
    let bc := if on_edge tm a
              then normalize (- fst bc, - snd bc) else bc in
    match next_portal tm b with
    | Some p => (p, sub_vecs p b)
    | None => (c, bc)
    end
  else (c, bc).

(** The final classification of [get_arrangement]. *)
Definition classify (a b c ba bc : vec) : result Z :=
  if (fst a =? fst b) && (fst b =? fst c) then
    Ok (Z.lor VERTICAL STRAIGHT)
  else if (snd a =? snd b) && (snd b =? snd c) then
    Ok STRAIGHT
  else
    fa <- dirflag ba ;;
    fc <- dirflag bc ;;
    Ok (Z.lor fa fc).

Definition get_arrangement (snake : list vec) (index : Z) (tm : Tilemap)
  : result Z :=
  a <- py_index snake (index - 1) ;;
  b <- py_index snake index ;;
  c <- py_index snake (index + 1) ;;
  let '(a', ba) := resolve_a tm a b in
  let '(c', bc) := resolve_c tm a b c in
  classify a' b c' ba bc.

(** The [bc] block as the specification words it: the mirror image of
    the [ba] block, with the edge test on [c] and the normalised vector
    negated.  Used only to state where the code departs from it. *)
Definition resolve_c_spec (tm : Tilemap) (b c : vec) : vec * vec :=
  let bc := sub_vecs c b in
  if 1 <? m_distance c b then
    let bc := if on_edge tm c
              then (- fst (normalize bc), - snd (normalize bc)) else bc in
    match next_portal tm b with
    | Some p => (p, sub_vecs p b)
    | None => (c, bc)
    end
  else (c, bc).

Definition get_arrangement_spec (snake : list vec) (index : Z)
           (tm : Tilemap) : result Z :=
  a <- py_index snake (index - 1) ;;
  b <- py_index snake index ;;
  c <- py_index snake (index + 1) ;;
  let '(a', ba) := resolve_a tm a b in
  let '(c', bc) := resolve_c_spec tm b c in
  classify a' b c' ba bc.

End Resolver.

(** A ten by ten arena without portals, whose edge is its border. *)
Definition border10 (v : vec) : bool :=
  (fst v =? 0) || (fst v =? 9) || (snd v =? 0) || (snd v =? 9).

Definition wrap10 (v : vec) : vec := (fst v mod 10, snd v mod 10).

Definition arena10 : Tilemap := mkTilemap border10 [].

Definition game10 : Game := mkGame wrap10 arena10.

(** ** Numbers *)

(** The operations that the creature uses on its speeds and timers.
    [of_Q] reads a literal; [fleb x y] is Python's [x <= y] (and
    [y >= x]), [fltb x y] is [x < y] (and [y > x]), and [feqb] is the
    equality with which a division tests its divisor for zero. *)
Class Arith : Type := {
  num : Type;
  of_Q : Q -> num;
  fadd : num -> num -> num;
  fsub : num -> num -> num;
  fopp : num -> num;
  fdiv : num -> num -> num;
  feqb : num -> num -> bool;
  fleb : num -> num -> bool;
  fltb : num -> num -> bool
}.

Declare Scope num_scope.
Delimit Scope num_scope with num.
Notation "x + y" := (fadd x y) : num_scope.
Notation "x - y" := (fsub x y) : num_scope.
Notation "- x" := (fopp x) : num_scope.
Notation "x / y" := (fdiv x y) : num_scope.
Notation "x =? y" := (feqb x y) : num_scope.
Notation "x <=? y" := (fleb x y) : num_scope.
Notation "x <? y" := (fltb x y) : num_scope.

(** [x < y] on rationals. *)
Definition Qlt_bool (x y : Q) : bool := negb (Qle_bool y x).

(** The exact arithmetic of the rational numbers. *)
Definition rational : Arith :=
  {| num := Q;
     of_Q := fun q => q;
     fadd := Qplus;
     fsub := Qminus;
     fopp := Qopp;
     fdiv := Qdiv;
     feqb := Qeq_bool;
     fleb := Qle_bool;
     fltb := Qlt_bool |}.

(** The float of an integer (exact below 2^53 in absolute value). *)
Definition float_of_Z (z : Z) : float :=
  match z with
  | Z0 => 0%float
  | Zpos _ => PrimFloat.of_uint63 (Uint63.of_Z z)
  | Zneg p => (- PrimFloat.of_uint63 (Uint63.of_Z (Zpos p)))%float
  end.

(** The arithmetic of Python's [float].  A literal is read as the
    float nearest to it: the correctly rounded quotient of its
    numerator and denominator. *)
Definition binary64 : Arith :=
  {| num := float;
     of_Q := fun q =>
       (float_of_Z (Qnum q) / float_of_Z (Zpos (Qden q)))%float;
     fadd := PrimFloat.add;
     fsub := PrimFloat.sub;
     fopp := PrimFloat.opp;
     fdiv := PrimFloat.div;
     feqb := PrimFloat.eqb;
     fleb := PrimFloat.leb;
     fltb := PrimFloat.ltb |}.

(** ** Settings *)

(** The constants imported from [settings]; their values are not part of
    the modelled file. *)
Record Settings {A : Arith} : Type := mkSettings {
  INVINCIBILITY_BLINK_RATE : num;
  MAX_HITPOINTS : Z;
  INIT_SPEED : num;
  MIN_SPEED : num;
  MAX_SPEED : num
}.

Arguments mkSettings {A}.

(** ** The creature *)

(** [SnakeNormalState] has no fields; [SnakeInvincibleState] carries its
    [lifetime], [elapsed_lifetime] and [elapsed_blink].  The back pointer
    [self.snake] is the creature that holds the state. *)
Inductive State {A : Arith} : Type :=
| SnakeNormalState
| SnakeInvincibleState (lifetime elapsed_lifetime elapsed_blink : num).

(** The attributes of [Snake].  [killed_log] records the calls of the
    external [killed_event] handler, oldest first, with their argument. *)
Record Snake {A : Arith} : Type := mkSnake {
  body : list vec;
  heading : option vec;
  _hitpoints : Z;
  _speed : num;
  _speed_bonus : num;
  elapsed_t : num;
  grow : Z;
  isalive : bool;
  isvisible : bool;
  isinvincible : bool;
  ismoving : bool;
  curr_state : State;
  prev : list vec;
  prev_heading : option vec;
  killed_log : list Z
}.

Arguments mkSnake {A}.

Section Attributes.

Context {A : Arith}.

Definition with_body (s : Snake) (v : list vec) : Snake :=
  mkSnake v (heading s) (_hitpoints s) (_speed s) (_speed_bonus s)
          (elapsed_t s) (grow s) (isalive s) (isvisible s) (isinvincible s)
          (ismoving s) (curr_state s) (prev s) (prev_heading s) (killed_log s).

Definition with_heading (s : Snake) (v : option vec) : Snake :=
  mkSnake (body s) v (_hitpoints s) (_speed s) (_speed_bonus s)
          (elapsed_t s) (grow s) (isalive s) (isvisible s) (isinvincible s)
          (ismoving s) (curr_state s) (prev s) (prev_heading s) (killed_log s).

Definition with_hitpoints (s : Snake) (v : Z) : Snake :=
  mkSnake (body s) (heading s) v (_speed s) (_speed_bonus s)
          (elapsed_t s) (grow s) (isalive s) (isvisible s) (isinvincible s)
          (ismoving s) (curr_state s) (prev s) (prev_heading s) (killed_log s).

Definition with_speed (s : Snake) (v : num) : Snake :=
  mkSnake (body s) (heading s) (_hitpoints s) v (_speed_bonus s)
          (elapsed_t s) (grow s) (isalive s) (isvisible s) (isinvincible s)
          (ismoving s) (curr_state s) (prev s) (prev_heading s) (killed_log s).

Definition with_speed_bonus (s : Snake) (v : num) : Snake :=
  mkSnake (body s) (heading s) (_hitpoints s) (_speed s) v
          (elapsed_t s) (grow s) (isalive s) (isvisible s) (isinvincible s)
          (ismoving s) (curr_state s) (prev s) (prev_heading s) (killed_log s).

Definition with_elapsed_t (s : Snake) (v : num) : Snake :=
  mkSnake (body s) (heading s) (_hitpoints s) (_speed s) (_speed_bonus s)
          v (grow s) (isalive s) (isvisible s) (isinvincible s)
          (ismoving s) (curr_state s) (prev s) (prev_heading s) (killed_log s).

Definition with_grow (s : Snake) (v : Z) : Snake :=
  mkSnake (body s) (heading s) (_hitpoints s) (_speed s) (_speed_bonus s)
          (elapsed_t s) v (isalive s) (isvisible s) (isinvincible s)
          (ismoving s) (curr_state s) (prev s) (prev_heading s) (killed_log s).

Definition with_isalive (s : Snake) (v : bool) : Snake :=
  mkSnake (body s) (heading s) (_hitpoints s) (_speed s) (_speed_bonus s)
          (elapsed_t s) (grow s) v (isvisible s) (isinvincible s)
          (ismoving s) (curr_state s) (prev s) (prev_heading s) (killed_log s).

Definition with_isvisible (s : Snake) (v : bool) : Snake :=
  mkSnake (body s) (heading s) (_hitpoints s) (_speed s) (_speed_bonus s)
          (elapsed_t s) (grow s) (isalive s) v (isinvincible s)
          (ismoving s) (curr_state s) (prev s) (prev_heading s) (killed_log s).

Definition with_isinvincible (s : Snake) (v : bool) : Snake :=
  mkSnake (body s) (heading s) (_hitpoints s) (_speed s) (_speed_bonus s)
          (elapsed_t s) (grow s) (isalive s) (isvisible s) v
          (ismoving s) (curr_state s) (prev s) (prev_heading s) (killed_log s).

Definition with_ismoving (s : Snake) (v : bool) : Snake :=
  mkSnake (body s) (heading s) (_hitpoints s) (_speed s) (_speed_bonus s)
          (elapsed_t s) (grow s) (isalive s) (isvisible s) (isinvincible s)
          v (curr_state s) (prev s) (prev_heading s) (killed_log s).

Definition with_curr_state (s : Snake) (v : State) : Snake :=
  mkSnake (body s) (heading s) (_hitpoints s) (_speed s) (_speed_bonus s)
          (elapsed_t s) (grow s) (isalive s) (isvisible s) (isinvincible s)
          (ismoving s) v (prev s) (prev_heading s) (killed_log s).

Definition with_prev (s : Snake) (v : list vec) : Snake :=
  mkSnake (body s) (heading s) (_hitpoints s) (_speed s) (_speed_bonus s)
          (elapsed_t s) (grow s) (isalive s) (isvisible s) (isinvincible s)
          (ismoving s) (curr_state s) v (prev_heading s) (killed_log s).

Definition with_prev_heading (s : Snake) (v : option vec) : Snake :=
  mkSnake (body s) (heading s) (_hitpoints s) (_speed s) (_speed_bonus s)
          (elapsed_t s) (grow s) (isalive s) (isvisible s) (isinvincible s)
          (ismoving s) (curr_state s) (prev s) v (killed_log s).

(** [self.killed_event(dealt_by)]: one more call of the handler. *)
Definition killed_event (s : Snake) (dealt_by : Z) : Snake :=
  mkSnake (body s) (heading s) (_hitpoints s) (_speed s) (_speed_bonus s)
          (elapsed_t s) (grow s) (isalive s) (isvisible s) (isinvincible s)
          (ismoving s) (curr_state s) (prev s) (prev_heading s)
          (killed_log s ++ [dealt_by]).

End Attributes.

(** The shrink loop of [take_damage]:
    [for _ in range(shrink): if len(self.body) == 2: break;
     (self.prev if setback else self.body).pop()].
    The guard always reads [self.body]. *)
Fixpoint shrink_loop (n : nat) (setback : bool) (bd pv : list vec)
  : result (list vec * list vec) :=
  match n with
  | O => Ok (bd, pv)
  | S n' =>
      if (length bd =? 2)%nat then Ok (bd, pv)
      else if setback then
        pv' <- pop pv ;; shrink_loop n' setback bd pv'
      else
        bd' <- pop bd ;; shrink_loop n' setback bd' pv
  end.

(** The shrink loop of [move]:
    [for _ in range(-self.grow+1): if len(self.body) == 2: break;
     self.body.pop()]. *)
Fixpoint move_shrink_loop (n : nat) (bd : list vec) : result (list vec) :=
  match n with
  | O => Ok bd
  | S n' =>
      if (length bd =? 2)%nat then Ok bd
      else bd' <- pop bd ;; move_shrink_loop n' bd'
  end.

(** The growth bookkeeping of [move], after the new head was inserted:
    the new body and the new value of [grow]. *)
Definition resolve_growth (g : Z) (bd : list vec) : result (list vec * Z) :=
  if g =? 0 then
    bd' <- pop bd ;; Ok (bd', g)
  else if 0 <? g then
    Ok (bd, g - 1)
  else if g <? 0 then
    bd' <- move_shrink_loop (Z.to_nat (- g + 1)) bd ;; Ok (bd', 0)
  else Ok (bd, g).

Section Creature.

Context {A : Arith}.

Variable cfg : Settings.
Variable game : Game.
Variable normalize : vec -> vec.

(** [Snake.__init__]; the state object built on its line 177 sets
    [isinvincible]. *)
Definition init (pos : vec) : Snake :=
  let bd := [pos; (fst pos + 1, snd pos)] in
  mkSnake bd None (MAX_HITPOINTS cfg) (INIT_SPEED cfg) (of_Q 0) (of_Q 0) 0
          true true true false
          (SnakeInvincibleState (of_Q 5) (of_Q 0) (of_Q 0))
          bd None [].

(** The [hitpoints] setter. *)
Definition set_hitpoints (s : Snake) (value : Z) : Snake :=
  if MAX_HITPOINTS cfg <? value then with_hitpoints s (MAX_HITPOINTS cfg)
  else if value <? 0 then with_hitpoints s 0
  else with_hitpoints s value.

(** The [speed] setter. *)
Definition set_speed (s : Snake) (value : num) : Snake :=
  if (MAX_SPEED cfg <? value)%num then with_speed s (MAX_SPEED cfg)
  else if (value <? MIN_SPEED cfg)%num then with_speed s (MIN_SPEED cfg)
  else with_speed s value.

(** The [speed_bonus] setter. *)
Definition set_speed_bonus (s : Snake) (value : num) : Snake :=
  with_speed_bonus s value.

Definition gain_speed (s : Snake) (speed : num) : Snake :=
  set_speed s (_speed s + speed)%num.

Definition gain_hitpoints (s : Snake) (hitpoints : Z) : Snake :=
  let s1 := set_hitpoints s (_hitpoints s + hitpoints) in
  if MAX_HITPOINTS cfg <? _hitpoints s1
  then set_hitpoints s1 (MAX_HITPOINTS cfg) else s1.

Definition set_heading (s : Snake) (new_heading : vec) : Snake :=
  let s1 := with_prev_heading s (heading s) in
  with_heading s1 (Some (if negb (vec_eqb new_heading (0, 0))
                         then normalize new_heading else new_heading)).

(** [SnakeInvincibleState.leave]. *)
Definition leave_invincible (s : Snake) : Snake :=
  with_isvisible (with_isinvincible s false) true.

(** [Snake.change_state]: only the invincible state has a [leave]. *)
Definition change_state (s : Snake) (new_state : State) : Snake :=
  let s1 := match curr_state s with
            | SnakeInvincibleState _ _ _ => leave_invincible s
            | SnakeNormalState => s
            end in
  with_curr_state s1 new_state.

(** [self.change_state(SnakeInvincibleState(self, lifetime))]: the
    argument is built first, and building it sets [isinvincible]; the
    old state's [leave] runs after that. *)
Definition enter_invincible (s : Snake) (lifetime : num) : Snake :=
  change_state (with_isinvincible s true)
               (SnakeInvincibleState lifetime (of_Q 0) (of_Q 0)).

(** The sign of [p - q] as the setback block computes it. *)
Definition axis_sign (p q : Z) : Z :=
  if q <? p then 1 else if p <? q then -1 else 0.

(** The [if setback:] block of [take_damage]. *)
Definition set_back (s : Snake) : result Snake :=
  let s1 := with_body s (prev s) in
  b0 <- py_index (body s1) 0 ;;
  b1 <- py_index (body s1) 1 ;;
  let v := (axis_sign (fst b0) (fst b1), axis_sign (snd b0) (snd b1)) in
  Ok (with_prev_heading (set_heading s1 v) (Some v)).

(** The [if not self.isinvincible:] block of [take_damage]. *)
Definition apply_damage (s : Snake) (dmg : Z) (setback : bool)
           (shrink : Z) (slowdown : num) : result Snake :=
  let s1 := set_hitpoints s (_hitpoints s - dmg) in
  bp <- shrink_loop (Z.to_nat shrink) setback (body s1) (prev s1) ;;
  Ok (gain_speed (with_prev (with_body s1 (fst bp)) (snd bp))
                 (- slowdown)%num).

(** The death check that ends [take_damage]. *)
Definition death_check (s : Snake) (dealt_by : Z) : Snake :=
  if _hitpoints s <=? 0
  then killed_event (with_isalive s false) dealt_by
  else s.

Definition take_damage (s : Snake) (dmg dealt_by : Z)
           (setback invincible : bool) (invinc_lifetime : num)
           (shrink : Z) (slowdown : num) : result Snake :=
  s1 <- (if negb (isinvincible s)
         then apply_damage s dmg setback shrink slowdown
         else Ok s) ;;
  s2 <- (if setback then set_back s1 else Ok s1) ;;
  let s3 := if invincible && negb (isinvincible s2)
            then enter_invincible s2 invinc_lifetime else s2 in
  Ok (death_check s3 dealt_by).

Definition respawn (s : Snake) (pos : vec) : Snake :=
  let s1 := with_body s [pos; (fst pos + 1, snd pos)] in
  let s2 := with_speed s1 (INIT_SPEED cfg) in
  let s3 := with_heading s2 None in
  let s4 := with_prev_heading s3 None in
  let s5 := with_ismoving s4 false in
  let s6 := with_isalive s5 true in
  let s7 := set_hitpoints s6 (MAX_HITPOINTS cfg) in
  let s8 := enter_invincible s7 (of_Q (35 # 10)) in
  with_elapsed_t s8 (of_Q 0).

(** [1. / (self._speed + self._speed_bonus)]: the sum, then the
    quotient; a divisor that equals zero is a [ZeroDivisionError]. *)
Definition cadence (s : Snake) : result num :=
  let d := (_speed s + _speed_bonus s)%num in
  if (d =? of_Q 0)%num then Raise ZeroDivisionError
  else Ok (of_Q 1 / d)%num.

(** The body of [if self.elapsed_t >= ...:] in [move]: one discrete
    step.  [add_vecs] of a heading that is [None] is a [TypeError]. *)
Definition step (s : Snake) : result Snake :=
  let s1 := with_prev s (body s) in
  c <- cadence s1 ;;
  let s2 := with_elapsed_t s1 (elapsed_t s1 - c)%num in
  b0 <- py_index (body s2) 0 ;;
  h <- match heading s2 with
       | Some h => Ok h
       | None => Raise TypeError
       end ;;
  bg <- resolve_growth (grow s2) (add_vecs b0 h :: body s2) ;;
  Ok (with_grow (with_body s2 (fst bg)) (snd bg)).

Definition move (s : Snake) : result Snake :=
  if negb (ismoving s) then Ok s
  else
    b0 <- py_index (body s) 0 ;;
    bd <- set_first (body s) (toroidal game b0) ;;
    let s1 := with_body s bd in
    c <- cadence s1 ;;
    if (c <=? elapsed_t s1)%num then step s1 else Ok s1.

(** The first half of [SnakeInvincibleState.update]: both timers take
    the frame's time, and the blink accumulator, when it has reached
    the blink rate, gives it back and [isvisible] is inverted. *)
Definition blink (s : Snake) (lifetime el eb delta_time : num) : Snake :=
  let el1 := (el + delta_time)%num in
  let eb1 := (eb + delta_time)%num in
  let reached := (INVINCIBILITY_BLINK_RATE cfg <=? eb1)%num in
  let eb2 := if reached then (eb1 - INVINCIBILITY_BLINK_RATE cfg)%num
             else eb1 in
  let s1 := if reached then with_isvisible s (negb (isvisible s)) else s in
  with_curr_state s1 (SnakeInvincibleState lifetime el1 eb2).

(** [SnakeInvincibleState.update] up to, and without, the final
    [self.snake.move()]: the blink, then the test of the lifetime. *)
Definition invincible_tick (s : Snake) (lifetime el eb delta_time : num)
  : Snake :=
  let s2 := blink s lifetime el eb delta_time in
  if (lifetime <=? el + delta_time)%num
  then change_state s2 SnakeNormalState else s2.

(** [self.curr_state.update(delta_time)]. *)
Definition state_update (s : Snake) (delta_time : num) : result Snake :=
  match curr_state s with
  | SnakeNormalState => move s
  | SnakeInvincibleState lifetime el eb =>
      move (invincible_tick s lifetime el eb delta_time)
  end.

Definition update (s : Snake) (delta_time : num) : result Snake :=
  if negb (isalive s) then Ok s
  else
    let s1 := if ismoving s
              then with_elapsed_t s (elapsed_t s + delta_time)%num else s in
    state_update s1 delta_time.

End Creature.

(** ** Rendering *)

Section Rendering.

Context {A : Arith}.

Variable game : Game.
Variable normalize : vec -> vec.

(** [self.heading and self.heading != (0, 0)]: a tuple is truthy,
    [None] is not. *)
Definition has_heading (s : Snake) : bool :=
  match heading s with
  | Some h => negb (vec_eqb h (0, 0))
  | None => false
  end.

(** The sprite region of the head ([index == 0]). *)
Definition head_area (s : Snake) : result Rect :=
  match heading s with
  | Some h =>
      if negb (vec_eqb h (0, 0))
      then f <- dirflag h ;; dict_get Z.eqb HEAD f
      else dict_get Z.eqb HEAD Dir.W
  | None => dict_get Z.eqb HEAD Dir.W
  end.

(** The sprite region of an interior segment. *)
Definition interior_area (s : Snake) (index : Z) : result Rect :=
  argm <- get_arrangement normalize (body s) index (tilemap game) ;;
  if Z.land argm STRAIGHT =? STRAIGHT then
    if Z.land argm VERTICAL =? VERTICAL then
      if negb (index mod 2 =? 0) then Ok STRAIGHT1_V else Ok STRAIGHT2_V
    else
      if negb (index mod 2 =? 0) then Ok STRAIGHT1_H else Ok STRAIGHT2_H
  else dict_get Z.eqb TURN (Z.land argm 15).

(** The sprite region of the tail (the last branch of the loop). *)
Definition tail_area (s : Snake) (body_len : Z) : result Rect :=
  if has_heading s then
    p <- py_index (body s) (body_len - 2) ;;
    q <- py_index (body s) (body_len - 1) ;;
    f <- dirflag (normalize (sub_vecs p q)) ;;
    dict_get Z.eqb TAIL f
  else dict_get Z.eqb TAIL Dir.W.

Definition part_area (s : Snake) (body_len index : Z) : result Rect :=
  if index =? 0 then head_area s
  else if (0 <? index) && (index <? body_len - 1)
  then interior_area s index
  else tail_area s body_len.

(** The loop of [draw] from [index] on; the result lists the calls
    [self.game.graphics.draw(self.skin, part, area=area)]. *)
Fixpoint draw_parts (s : Snake) (body_len index : Z) (parts : list vec)
  : result (list (vec * Rect)) :=
  match parts with
  | [] => Ok []
  | part :: rest =>
      area <- part_area s body_len index ;;
      calls <- draw_parts s body_len (index + 1) rest ;;
      Ok ((part, area) :: calls)
  end.

Definition draw (s : Snake) : result (list (vec * Rect)) :=
  if negb (isalive s) then Ok []
  else if isvisible s
  then draw_parts s (Z.of_nat (length (body s))) 0 (body s)
  else Ok [].

(** The same loop with the calls that precede an exception kept: the
    calls made so far, oldest first, and the exception that ended the
    loop, if one did.  The region of a part is computed before the
    backend is called for it. *)
Fixpoint draw_parts_trace (s : Snake) (body_len index : Z)
         (parts : list vec) : list (vec * Rect) * option exn :=
  match parts with
  | [] => ([], None)
  | part :: rest =>
      match part_area s body_len index with
      | Raise e => ([], Some e)
      | Ok area =>
          let r := draw_parts_trace s body_len (index + 1) rest in
          ((part, area) :: fst r, snd r)
      end
  end.

Definition draw_trace (s : Snake) : list (vec * Rect) * option exn :=
  if negb (isalive s) then ([], None)
  else if isvisible s
  then draw_parts_trace s (Z.of_nat (length (body s))) 0 (body s)
  else ([], None).

End Rendering.

(** ** Reachable creatures *)

(** What the game can do with a creature: call one of its methods or
    setters, or write one of the attributes that only the game writes
    ([ismoving], [grow]). *)
Inductive op {A : Arith} : Type :=
| OpSetSpeed (value : num)
| OpSetSpeedBonus (value : num)
| OpGainSpeed (speed : num)
| OpSetHitpoints (value : Z)
| OpGainHitpoints (hitpoints : Z)
| OpSetHeading (new_heading : vec)
| OpTakeDamage (dmg dealt_by : Z) (setback invincible : bool)
               (invinc_lifetime : num) (shrink : Z) (slowdown : num)
| OpRespawn (pos : vec)
| OpUpdate (delta_time : num)
| OpSetMoving (value : bool)
| OpSetGrow (value : Z).

Section Reachable.

Context {A : Arith}.

Variable cfg : Settings.
Variable game : Game.
Variable normalize : vec -> vec.

Definition apply_op (o : op) (s : Snake) : result Snake :=
  match o with
  | OpSetSpeed v => Ok (set_speed cfg s v)
  | OpSetSpeedBonus v => Ok (set_speed_bonus s v)
  | OpGainSpeed v => Ok (gain_speed cfg s v)
  | OpSetHitpoints v => Ok (set_hitpoints cfg s v)
  | OpGainHitpoints v => Ok (gain_hitpoints cfg s v)
  | OpSetHeading v => Ok (set_heading normalize s v)
  | OpTakeDamage dmg by_ sb inv lt sh sl =>
      take_damage cfg normalize s dmg by_ sb inv lt sh sl
  | OpRespawn pos => Ok (respawn cfg s pos)
  | OpUpdate dt => update cfg game s dt
  | OpSetMoving v => Ok (with_ismoving s v)
  | OpSetGrow v => Ok (with_grow s v)
  end.

Fixpoint run (ops : list op) (s : Snake) : result Snake :=
  match ops with
  | [] => Ok s
  | o :: rest => s' <- apply_op o s ;; run rest s'
  end.

(** A creature is reachable when some sequence of operations, none of
    which raises, leads to it from a freshly built creature. *)
Definition reachable (s : Snake) : Prop :=
  exists pos ops, run ops (init cfg pos) = Ok s.

End Reachable.

(** ** Headings, bodies and item assignment *)

(** One of the four keys of [VEC_TO_DIRFLAG]. *)
Definition is_cardinal (v : vec) : bool :=
  existsb (vec_eqb v) [RIGHT; LEFT; UP; DOWN].

(** Every cell is one step from the next one. *)
Fixpoint contiguous (bd : list vec) : bool :=
  match bd with
  | a :: rest =>
      match rest with
      | b :: _ => (m_distance a b =? 1) && contiguous rest
      | [] => true
      end
  | [] => true
  end.

(** [l[i] = v] with Python's negative indices; [IndexError] out of
    range. *)
Definition py_set_index {A : Type} (l : list A) (i : Z) (v : A)
  : result (list A) :=
  let n := Z.of_nat (length l) in
  let j := if i <? 0 then i + n else i in
  if (j <? 0) || (n <=? j) then Raise IndexError
  else Ok (firstn (Z.to_nat j) l ++ v :: skipn (S (Z.to_nat j)) l).

(** ** What the properties speak of *)

Section Predicates.

Context {A : Arith}.

(** What [move] needs in order not to raise: a creature that moves has
    a head cell, a heading, and a divisor [_speed + _speed_bonus] that
    does not equal zero. *)
Definition can_move (s : Snake) : Prop :=
  ismoving s = false \/
  (body s <> [] /\ heading s <> None /\
   (_speed s + _speed_bonus s =? of_Q 0)%num = false).

(** A sequence of frames. *)
Fixpoint updates (cfg : Settings) (game : Game) (s : Snake)
         (dts : list num) : result Snake :=
  match dts with
  | [] => Ok s
  | dt :: rest => s' <- update cfg game s dt ;; updates cfg game s' rest
  end.

(** [Snake.__getitem__]. *)
Definition __getitem__ (s : Snake) (i : Z) : result vec :=
  py_index (body s) i.

(** [Snake.__setitem__]. *)
Definition __setitem__ (s : Snake) (i : Z) (item : vec) : result Snake :=
  bd <- py_set_index (body s) i item ;; Ok (with_body s bd).

(** [k] discrete steps in a row. *)
Fixpoint steps (k : nat) (s : Snake) : result Snake :=
  match k with
  | O => Ok s
  | S k' => s' <- step s ;; steps k' s'
  end.

(** The hitpoints lie within their bounds. *)
Definition hitpoints_ok (cfg : Settings) (s : Snake) : Prop :=
  0 <= _hitpoints s <= MAX_HITPOINTS cfg.

(** [body] and [prev] have two cells or more. *)
Definition two_cells (s : Snake) : Prop :=
  (2 <= length (body s))%nat /\ (2 <= length (prev s))%nat.

(** The heading is unset, zero, or one of the four directions. *)
Definition heading_drawable (s : Snake) : bool :=
  match heading s with
  | None => true
  | Some h => vec_eqb h (0, 0) || is_cardinal h
  end.

(** A fresh creature is turned to the left, set moving with one cell of
    growth pending, and updated once, six seconds later: its initial
    invincibility has run out and it has taken one step. *)
Definition grow_once : list op :=
  [OpSetHeading LEFT; OpSetMoving true; OpSetGrow 1; OpUpdate (of_Q 6)].

(** A fresh creature is turned to the left, set moving, and given a
    speed bonus that is the opposite of its speed. *)
Definition cancel_speed : list op :=
  [OpSetHeading LEFT; OpSetMoving true;
   OpSetSpeedBonus (- of_Q 10)%num].

(** The speed is sent above [MAX_SPEED], brought down below
    [MIN_SPEED], and a bonus of minus one half is set; the creature is
    then turned to the left, set moving and updated once. *)
Definition slow_down : list op :=
  [OpSetSpeed (of_Q 50); OpGainSpeed (- of_Q 100)%num;
   OpSetSpeedBonus (- of_Q (1 # 2))%num;
   OpSetHeading LEFT; OpSetMoving true; OpUpdate (of_Q (1 # 10))].

End Predicates.

(** The speed attribute lies within its bounds, as rational numbers. *)
Definition speed_ok (cfg : @Settings rational) (s : @Snake rational)
  : Prop :=
  (MIN_SPEED cfg <= _speed s)%Q /\ (_speed s <= MAX_SPEED cfg)%Q.

(** ** Concrete settings and creatures for the examples *)

(** A blink rate of a fifth of a second, a hundred hitpoints, and a
    speed of ten cells a second that may vary from one to twenty. *)
Definition settings0 : @Settings binary64 :=
  mkSettings (A := binary64) 0.2%float 100 10%float 1%float 20%float.

(** The same settings over the rationals. *)
Definition exact_settings0 : @Settings rational :=
  mkSettings (A := rational) (2 # 10)%Q 100 (10 # 1)%Q (1 # 1)%Q (20 # 1)%Q.

(** A body whose third cell is two steps from the second, on the border
    of [arena10], while its first cell is not on the border. *)
Definition gap_body : list vec := [(2, 5); (2, 4); (0, 4)].

(** A moving creature of six cells that heads left, in the normal
    state, with the given [grow] and [elapsed_t]. *)
Definition six_cells (g : Z) (t : float) : @Snake binary64 :=
  let bd := [(3, 4); (4, 4); (5, 4); (6, 4); (7, 4); (8, 4)] in
  mkSnake (A := binary64) bd (Some LEFT) 100 10%float 0%float t g
          true true false true SnakeNormalState bd (Some LEFT) [].

(** The length that the specification's wording gives to the body after
    a step with a negative [grow]: one cell more for the new head, then
    the tail and [|grow| + 1] further cells less, but never under two.
    Used only to compare that wording with [step]. *)
Definition worded_shrink_length (len g : Z) : Z :=
  Z.max 2 (len + 1 - (1 + (Z.abs g + 1))).

(** A living, visible creature with the given body and heading. *)
Definition still_snake (bd : list vec) (h : option vec)
  : @Snake binary64 :=
  mkSnake (A := binary64) bd h 100 10%float 0%float 0%float 0
          true true false false SnakeNormalState bd h [].

(** A freshly built creature. *)
Definition snake0 : @Snake binary64 := init settings0 (4, 4).

(** A creature in the invincible state, at rest, with the given
    lifetime and timers. *)
Definition blinking (lifetime el eb : float) : @Snake binary64 :=
  with_curr_state snake0 (SnakeInvincibleState (A := binary64) lifetime el eb).

(** A moving creature of six cells that heads left at a speed of one
    cell a second. *)
Definition slow_six_cells : @Snake binary64 :=
  with_speed (A := binary64) (six_cells 0 0) 1%float.

(** ** The state machine base class ([fsm.py]) *)

Module Fsm.

(** A call of one of the two hooks that a [State] provides; the hooks
    themselves are abstract. *)
Inductive call (St : Type) : Type :=
| Enter (st : St) (old_state : option St)
| Leave (st : St).

Arguments Enter {St} st old_state.
Arguments Leave {St} st.

(** A [FiniteStateMachine]: its [curr_state] ([None] when it has none)
    and the hook calls it has made so far, oldest first.  State objects
    are truthy, as instances of a class without [__bool__] are. *)
Record machine (St : Type) : Type := mkMachine {
  curr_state : option St;
  calls : list (call St)
}.

Arguments mkMachine {St} curr_state calls.
Arguments curr_state {St} m.
Arguments calls {St} m.

(** [FiniteStateMachine.__init__]. *)
Definition init {St : Type} (init_state : option St) : machine St :=
  match init_state with
  | Some st => mkMachine (Some st) [Enter st None]
  | None => mkMachine None []
  end.

(** [FiniteStateMachine.change_state].  A [new_state] of [None] makes
    the call of [enter] fail (an [AttributeError], after the old state
    was left): the result is [None]. *)
Definition change_state {St : Type} (m : machine St)
           (new_state : option St) : option (machine St) :=
  let old_state := curr_state m in
  let calls1 := match old_state with
                | Some old => calls m ++ [Leave old]
                | None => calls m
                end in
  match new_state with
  | Some st => Some (mkMachine (Some st) (calls1 ++ [Enter st old_state]))
  | None => None
  end.

(** One [change_state] after the other. *)
Fixpoint run {St : Type} (m : machine St) (sts : list St)
  : option (machine St) :=
  match sts with
  | [] => Some m
  | st :: rest =>
      match change_state m (Some st) with
      | Some m' => run m' rest
      | None => None
      end
  end.

(** The hook calls of a walk from [cur] through [sts]. *)
Fixpoint transitions {St : Type} (cur : St) (sts : list St)
  : list (call St) :=
  match sts with
  | [] => []
  | st :: rest => Leave cur :: Enter st (Some cur) :: transitions st rest
  end.

End Fsm.

(** The ten by ten arena with one portal, at (5, 4). *)
Definition portal_arena : Tilemap := mkTilemap border10 [(5, 4)].

(** A body whose middle cell lies under that portal, far from both of
    its neighbours. *)
Definition portal_body : list vec := [(9, 9); (5, 5); (0, 0)].

(** * Properties *)

(** ** Results, lists and vectors *)

Lemma bind_Ok_inv {A B : Type} (r : result A) (k : A -> result B) (b : B) :
  bind r k = Ok b -> exists a, r = Ok a /\ k a = Ok b.
Proof.
  destruct r as [a|e]; simpl; intros H.
  - exists a. split; [reflexivity | exact H].
  - discriminate H.
Qed.

Lemma vec_eqb_eq (u v : vec) : vec_eqb u v = true <-> u = v.
Proof.
  destruct u as [ux uy], v as [vx vy]; unfold vec_eqb; simpl.
  rewrite andb_true_iff, !Z.eqb_eq. split.
  - intros [-> ->]; reflexivity.
  - intros H; inversion H; split; reflexivity.
Qed.

Lemma py_index_in_range {A : Type} (l : list A) (i : Z) :
  0 <= i < Z.of_nat (length l) ->
  exists x, py_index l i = Ok x /\ nth_error l (Z.to_nat i) = Some x.
Proof.
  intros [Hlo Hhi]. unfold py_index.
  destruct (Z.ltb_spec i 0) as [Hneg|_]; [lia|].
  destruct (Z.ltb_spec i 0) as [Hneg|_]; [lia|].
  destruct (Z.leb_spec (Z.of_nat (length l)) i) as [Hbig|_]; [lia|].
  simpl. destruct (nth_error l (Z.to_nat i)) as [x|] eqn:Hn.
  - exists x. split; reflexivity.
  - apply nth_error_None in Hn. lia.
Qed.

Lemma m_distance_sym (u v : vec) : m_distance u v = m_distance v u.
Proof. unfold m_distance. lia. Qed.

(** Two cells one step apart differ by one of the four directions. *)
Lemma adjacent_cardinal (u v : vec) :
  m_distance u v = 1 -> is_cardinal (sub_vecs u v) = true.
Proof.
  destruct u as [ux uy], v as [vx vy].
  unfold m_distance, sub_vecs, is_cardinal. cbn [fst snd]. intros H.
  assert (C : (ux - vx = 1 /\ uy - vy = 0) \/ (ux - vx = -1 /\ uy - vy = 0) \/
              (ux - vx = 0 /\ uy - vy = -1) \/ (ux - vx = 0 /\ uy - vy = 1))
    by lia.
  destruct C as [[-> ->]|[[-> ->]|[[-> ->]|[-> ->]]]]; reflexivity.
Qed.

Lemma is_cardinal_cases (v : vec) :
  is_cardinal v = true -> v = RIGHT \/ v = LEFT \/ v = UP \/ v = DOWN.
Proof.
  unfold is_cardinal. cbn [existsb]. rewrite !orb_true_iff.
  rewrite !vec_eqb_eq. intuition discriminate.
Qed.

(** [VEC_TO_DIRFLAG] has no entry for any other vector. *)
Lemma dirflag_not_cardinal (v : vec) :
  is_cardinal v = false -> dirflag v = Raise KeyError.
Proof.
  unfold is_cardinal, dirflag. cbn [existsb VEC_TO_DIRFLAG dict_get].
  rewrite !orb_false_iff. intros (Hr & Hl & Hu & Hd & _).
  unfold RIGHT, LEFT, UP, DOWN in *.
  assert (Hsym : forall u, vec_eqb v u = false -> vec_eqb u v = false).
  { intros u Hu'. destruct (vec_eqb u v) eqn:E; [|reflexivity].
    apply vec_eqb_eq in E. subst u.
    assert (Hvv : vec_eqb v v = true) by (apply vec_eqb_eq; reflexivity).
    congruence. }
  rewrite (Hsym _ Hu), (Hsym _ Hr), (Hsym _ Hd), (Hsym _ Hl). reflexivity.
Qed.

Lemma eqb_sub_l (x y : Z) : (x =? y) = (x - y =? 0).
Proof.
  destruct (Z.eqb_spec x y), (Z.eqb_spec (x - y) 0); try reflexivity; lia.
Qed.

Lemma eqb_sub_r (x y : Z) : (y =? x) = (x - y =? 0).
Proof.
  destruct (Z.eqb_spec y x), (Z.eqb_spec (x - y) 0); try reflexivity; lia.
Qed.

Ltac pick_eq := solve [reflexivity | left; reflexivity | right; pick_eq].

(** Between two neighbours that are each one step away the
    classification never fails, and gives a straight flag or one of the
    four keys of [TURN]. *)
Lemma classify_adjacent (a b c : vec) :
  m_distance a b = 1 ->
  m_distance c b = 1 ->
  exists f,
    classify a b c (sub_vecs a b) (sub_vecs c b) = Ok f /\
    (f = Z.lor VERTICAL STRAIGHT \/ f = STRAIGHT \/
     f = Dir.SE \/ f = Dir.SW \/ f = Dir.NE \/ f = Dir.NW).
Proof.
  intros Ha Hc.
  apply adjacent_cardinal, is_cardinal_cases in Ha, Hc.
  unfold classify.
  rewrite (eqb_sub_l (fst a) (fst b)), (eqb_sub_r (fst c) (fst b)).
  rewrite (eqb_sub_l (snd a) (snd b)), (eqb_sub_r (snd c) (snd b)).
  change (fst a - fst b) with (fst (sub_vecs a b)).
  change (snd a - snd b) with (snd (sub_vecs a b)).
  change (fst c - fst b) with (fst (sub_vecs c b)).
  change (snd c - snd b) with (snd (sub_vecs c b)).
  destruct Ha as [-> | [-> | [-> | ->]]];
    destruct Hc as [-> | [-> | [-> | ->]]];
    eexists; (split; [reflexivity|]); pick_eq.
Qed.

(** ** The arrangement resolver *)

Section ResolverFacts.

Variable normalize : vec -> vec.

(** Neighbours that are at most one step from [b] are left alone. *)
Lemma resolve_a_near (tm : Tilemap) (a b : vec) :
  m_distance a b <= 1 -> resolve_a normalize tm a b = (a, sub_vecs a b).
Proof.
  intros H. unfold resolve_a.
  destruct (Z.ltb_spec 1 (m_distance a b)); [lia | reflexivity].
Qed.

Lemma resolve_c_near (tm : Tilemap) (a b c : vec) :
  m_distance c b <= 1 -> resolve_c normalize tm a b c = (c, sub_vecs c b).
Proof.
  intros H. unfold resolve_c.
  destruct (Z.ltb_spec 1 (m_distance c b)); [lia | reflexivity].
Qed.

(** The [bc] block reads the arena only through the edge flag of [a]
    and the portals: the edge flag of [c] has no influence. *)
Lemma resolve_c_reads_edge_of_a (tm tm' : Tilemap) (a b c : vec) :
  portals tm = portals tm' ->
  on_edge tm a = on_edge tm' a ->
  resolve_c normalize tm a b c = resolve_c normalize tm' a b c.
Proof.
  intros Hp He. unfold resolve_c, next_portal. rewrite Hp, He. reflexivity.
Qed.

(** In the [bc] block a portal one step from [b] replaces [c]. *)
Lemma resolve_c_portal (tm : Tilemap) (a b c p : vec) :
  1 < m_distance c b ->
  next_portal tm b = Some p ->
  resolve_c normalize tm a b c = (p, sub_vecs p b).
Proof.
  intros H Hp. unfold resolve_c.
  destruct (Z.ltb_spec 1 (m_distance c b)); [|lia].
  rewrite Hp. reflexivity.
Qed.

(** In the [bc] block, without such a portal, [bc] is negated and then
    normalised exactly when [a] lies on the edge. *)
Lemma resolve_c_no_portal (tm : Tilemap) (a b c : vec) :
  1 < m_distance c b ->
  next_portal tm b = None ->
  resolve_c normalize tm a b c =
  (c, if on_edge tm a
      then normalize (- (fst c - fst b), - (snd c - snd b))
      else sub_vecs c b).
Proof.
  intros H Hp. unfold resolve_c.
  destruct (Z.ltb_spec 1 (m_distance c b)); [|lia].
  rewrite Hp. reflexivity.
Qed.


End ResolverFacts.

(** The examples of the specification: three horizontal cells in a row
    give [STRAIGHT], three vertical cells [VERTICAL | STRAIGHT], and the
    L-shaped triple [a = (1,0)], [b = (0,0)], [c = (0,1)] the turn flag
    that joins East (towards [a]) and South (towards [c]). *)
Example arrangement_horizontal :
  get_arrangement sign_normalize [(0, 5); (1, 5); (2, 5)] 1 arena10
  = Ok STRAIGHT.
Proof. reflexivity. Qed.

Example arrangement_vertical :
  get_arrangement sign_normalize [(3, 4); (3, 5); (3, 6)] 1 arena10
  = Ok (Z.lor VERTICAL STRAIGHT).
Proof. reflexivity. Qed.

Example arrangement_turn :
  get_arrangement sign_normalize [(1, 0); (0, 0); (0, 1)] 1 arena10
  = Ok Dir.SE.
Proof. reflexivity. Qed.


(** C6. The [bc] block is not the mirror image of the [ba] block: its
    edge test reads the flag of [a].  On [gap_body], where [a] is off the
    border and [c] is on it, the code leaves [bc = (-2, 0)] as it is and
    the flag lookup raises, while the mirrored block would normalise it
    and give the turn South-East. *)
Theorem bc_edge_test_reads_a :
  on_edge arena10 (2, 5) = false /\
  on_edge arena10 (0, 4) = true /\
  resolve_c sign_normalize arena10 (2, 5) (2, 4) (0, 4) = ((0, 4), (-2, 0)) /\
  resolve_c_spec sign_normalize arena10 (2, 4) (0, 4) = ((0, 4), (1, 0)) /\
  get_arrangement sign_normalize gap_body 1 arena10 = Raise KeyError /\
  get_arrangement_spec sign_normalize gap_body 1 arena10 = Ok Dir.SE.
Proof. repeat split. Qed.

(** ** The two shrink loops *)

Lemma pop_firstn {A : Type} (l : list A) :
  l <> [] -> pop l = Ok (firstn (length l - 1) l).
Proof.
  destruct l as [|x l]; [congruence|]. intros _. unfold pop.
  rewrite removelast_firstn_len. f_equal. f_equal. simpl. lia.
Qed.

(** The loop of [move] takes [n] cells from the tail, but stops at two
    cells. *)
Lemma move_shrink_loop_firstn (n : nat) (bd : list vec) :
  (2 <= length bd)%nat ->
  move_shrink_loop n bd = Ok (firstn (Nat.max 2 (length bd - n)) bd).
Proof.
  revert bd. induction n as [|n IH]; intros bd Hlen;
    cbn [move_shrink_loop].
  - rewrite Nat.sub_0_r, Nat.max_r by lia. rewrite firstn_all. reflexivity.
  - destruct (Nat.eqb_spec (length bd) 2) as [E|E].
    + replace (Nat.max 2 (length bd - S n)) with (length bd) by lia.
      rewrite firstn_all. reflexivity.
    + rewrite pop_firstn by (intros ->; simpl in Hlen; lia).
      cbn [bind]. rewrite IH by (rewrite length_firstn; lia).
      rewrite firstn_firstn, length_firstn. f_equal. f_equal. lia.
Qed.

(** Without setback the loop of [take_damage] is that same loop, run on
    [body]; [prev] is not touched. *)
Lemma shrink_loop_body (n : nat) (bd pv : list vec) :
  shrink_loop n false bd pv = (bd' <- move_shrink_loop n bd ;; Ok (bd', pv)).
Proof.
  revert bd. induction n as [|n IH]; intros bd;
    cbn [shrink_loop move_shrink_loop bind]; [reflexivity|].
  destruct (length bd =? 2)%nat; [reflexivity|].
  destruct (pop bd) as [bd'|e]; cbn [bind]; [apply IH | reflexivity].
Qed.

(** Hence, without setback, a body of at least two cells keeps at least
    two cells. *)
Lemma shrink_loop_body_length (n : nat) (bd pv : list vec) :
  (2 <= length bd)%nat ->
  shrink_loop n false bd pv
  = Ok (firstn (Nat.max 2 (length bd - n)) bd, pv) /\
  (2 <= length (firstn (Nat.max 2 (length bd - n)) bd))%nat.
Proof.
  intros Hlen. rewrite shrink_loop_body, move_shrink_loop_firstn by assumption.
  split; [reflexivity|]. rewrite length_firstn. lia.
Qed.

(** With setback the guard still reads [body], which the loop does not
    change: unless [body] has exactly two cells, every round pops
    [prev]. *)
Lemma shrink_loop_prev (n : nat) (bd pv : list vec) :
  length bd <> 2%nat -> (n <= length pv)%nat ->
  shrink_loop n true bd pv = Ok (bd, firstn (length pv - n) pv).
Proof.
  intros Hbd. revert pv. induction n as [|n IH]; intros pv Hn;
    cbn [shrink_loop].
  - rewrite Nat.sub_0_r, firstn_all. reflexivity.
  - destruct (Nat.eqb_spec (length bd) 2) as [E|_]; [contradiction|].
    rewrite pop_firstn by (intros ->; simpl in Hn; lia).
    cbn [bind]. rewrite IH by (rewrite length_firstn; lia).
    rewrite firstn_firstn, length_firstn. f_equal. f_equal. f_equal. lia.
Qed.

(** C1. With setback the shrink phase can leave [prev] with fewer than
    two cells.  The creature reached by [grow_once] is not invincible,
    has three cells in [body] and two in [prev]; a hit with setback and
    a shrink count of one pops [prev] down to one cell, and restoring
    [body] from it raises [IndexError]. *)
Theorem take_damage_setback_shrinks_prev_below_two :
  exists s,
    run settings0 game10 sign_normalize grow_once (init settings0 (4, 4))
    = Ok s /\
    isinvincible s = false /\
    body s = [(3, 4); (4, 4); (5, 4)] /\
    prev s = [(4, 4); (5, 4)] /\
    shrink_loop (Z.to_nat 1) true (body s) (prev s) = Ok (body s, [(4, 4)]) /\
    take_damage settings0 sign_normalize s 1 7 true false 0%float 1 0%float
    = Raise IndexError.
Proof.
  eexists. split; [vm_compute; reflexivity|]. repeat split.
Qed.

(** ** The discrete step *)

(** What the growth bookkeeping does to a body of at least two cells
    (the body always has that many once the new head is inserted). *)
Lemma resolve_growth_firstn (g : Z) (bd : list vec) :
  (2 <= length bd)%nat ->
  resolve_growth g bd =
  Ok (if g =? 0 then (firstn (length bd - 1) bd, g)
      else if 0 <? g then (bd, g - 1)
      else (firstn (Nat.max 2 (length bd - Z.to_nat (- g + 1))) bd, 0)).
Proof.
  intros Hlen. unfold resolve_growth.
  destruct (Z.eqb_spec g 0) as [E|E].
  - rewrite pop_firstn by (intros ->; simpl in Hlen; lia). reflexivity.
  - destruct (Z.ltb_spec 0 g) as [Hpos|Hneg]; [reflexivity|].
    destruct (Z.ltb_spec g 0) as [_|Hge]; [|lia].
    rewrite move_shrink_loop_firstn by assumption. reflexivity.
Qed.

Lemma resolve_growth_nonempty (g g' : Z) (bd bd' : list vec) :
  resolve_growth g bd = Ok (bd', g') -> (2 <= length bd)%nat -> bd' <> [].
Proof.
  intros H Hlen. rewrite resolve_growth_firstn in H by exact Hlen.
  apply (f_equal (fun r => match r with
                           | Ok p => length (fst p)
                           | Raise _ => O
                           end)) in H.
  cbv beta iota in H. cbn [fst] in H. intros ->. cbn [length] in H.
  destruct (g =? 0); [|destruct (0 <? g)]; cbn [fst] in H;
    try rewrite length_firstn in H; lia.
Qed.

Section StepFacts.

Context {A : Arith}.

Lemma cadence_defined (s : Snake) :
  (_speed s + _speed_bonus s =? of_Q 0)%num = false ->
  cadence s = Ok (of_Q 1 / (_speed s + _speed_bonus s))%num.
Proof. intros Hd. unfold cadence. rewrite Hd. reflexivity. Qed.

Lemma cadence_zero (s : Snake) :
  (_speed s + _speed_bonus s =? of_Q 0)%num = true ->
  cadence s = Raise ZeroDivisionError.
Proof. intros Hd. unfold cadence. rewrite Hd. reflexivity. Qed.

(** One step, written out: [prev] takes the body, the cadence leaves
    [elapsed_t], the new head is inserted and the growth is resolved. *)
Lemma step_eq (s : Snake) (b0 : vec) (rest : list vec) (h : vec) :
  body s = b0 :: rest ->
  heading s = Some h ->
  (_speed s + _speed_bonus s =? of_Q 0)%num = false ->
  step s =
  (bg <- resolve_growth (grow s) (add_vecs b0 h :: b0 :: rest) ;;
   Ok (with_grow
         (with_body
            (with_elapsed_t (with_prev s (b0 :: rest))
               (elapsed_t s - of_Q 1 / (_speed s + _speed_bonus s))%num)
            (fst bg))
         (snd bg))).
Proof.
  intros Hb Hh Hd. unfold step.
  rewrite cadence_defined by exact Hd.
  cbn [bind with_prev with_elapsed_t body heading elapsed_t grow
       _speed _speed_bonus].
  rewrite Hb, Hh. reflexivity.
Qed.

(** C3 (amended). A step taken with [grow < 0] inserts the new head and
    then takes [|grow| + 1] cells in all from the tail, that is the tail
    and [|grow|] further cells, without going under two cells; it then
    sets [grow] to 0. *)
Theorem step_negative_growth (s : Snake) (b0 : vec) (rest : list vec)
        (h : vec) :
  body s = b0 :: rest ->
  heading s = Some h ->
  (_speed s + _speed_bonus s =? of_Q 0)%num = false ->
  grow s < 0 ->
  exists s',
    step s = Ok s' /\
    body s' =
      firstn (Nat.max 2 (length (body s) + 1 - Z.to_nat (Z.abs (grow s) + 1)))
             (add_vecs b0 h :: body s) /\
    (2 <= length (body s'))%nat /\
    grow s' = 0.
Proof.
  intros Hb Hh Hd Hg.
  rewrite (step_eq s b0 rest h Hb Hh Hd).
  rewrite resolve_growth_firstn by (simpl; lia).
  destruct (Z.eqb_spec (grow s) 0) as [E|_]; [lia|].
  destruct (Z.ltb_spec 0 (grow s)) as [E|_]; [lia|].
  cbn [bind fst snd]. eexists. split; [reflexivity|].
  cbn [body grow with_grow with_body]. rewrite Hb.
  replace (- grow s + 1) with (Z.abs (grow s) + 1) by lia.
  split; [|split]; [| |reflexivity].
  - f_equal. simpl length. lia.
  - rewrite length_firstn. simpl length. lia.
Qed.

End StepFacts.

Lemma step_negative_growth_witness :
  exists s',
    step (six_cells (-1) 0) = Ok s' /\
    body s' = [(2, 4); (3, 4); (4, 4); (5, 4); (6, 4)] /\
    grow s' = 0.
Proof.
  destruct (step_negative_growth (six_cells (-1) 0) (3, 4)
              [(4, 4); (5, 4); (6, 4); (7, 4); (8, 4)] LEFT)
    as (s' & Hs & Hbody & _ & Hgrow).
  - reflexivity.
  - reflexivity.
  - reflexivity.
  - simpl. lia.
  - exists s'. split; [exact Hs|]. split; [exact Hbody | exact Hgrow].
Defined.

(** C3 (as worded). With six cells and [grow = -1] the step leaves five
    cells: the new head makes seven and two are taken from the tail.
    The wording (the tail and [|grow| + 1] further cells) gives four. *)
Lemma step_negative_growth_not_as_worded :
  exists s',
    step (six_cells (-1) 0) = Ok s' /\
    grow (six_cells (-1) 0) < 0 /\
    Z.of_nat (length (body s')) = 5 /\
    worded_shrink_length
      (Z.of_nat (length (body (six_cells (-1) 0))))
      (grow (six_cells (-1) 0)) = 4.
Proof.
  eexists. split; [vm_compute; reflexivity|]. repeat split.
Qed.

(** ** Frames *)

Ltac bind_inv H :=
  let x := fresh "x" in
  let E := fresh "E" in
  apply bind_Ok_inv in H; destruct H as (x & E & H).

Section Frames.

Context {A : Arith}.

Variable cfg : Settings.
Variable game : Game.

(** A creature that moves: the head is wrapped, and one step is taken
    when the accumulated time has reached the cadence. *)
Lemma move_eq (s : Snake) (b0 : vec) (rest : list vec) :
  ismoving s = true ->
  body s = b0 :: rest ->
  (_speed s + _speed_bonus s =? of_Q 0)%num = false ->
  move game s =
  if (of_Q 1 / (_speed s + _speed_bonus s) <=? elapsed_t s)%num
  then step (with_body s (toroidal game b0 :: rest))
  else Ok (with_body s (toroidal game b0 :: rest)).
Proof.
  intros Hm Hb Hd. unfold move. rewrite Hm, Hb. cbn [negb].
  change (py_index (b0 :: rest) 0) with (Ok b0).
  cbn [bind set_first].
  rewrite (cadence_defined (with_body s (toroidal game b0 :: rest)) Hd).
  reflexivity.
Qed.

(** [move] writes [body], [prev], [elapsed_t] and [grow] only. *)
Lemma move_frame (s s' : Snake) :
  move game s = Ok s' ->
  heading s' = heading s /\ _hitpoints s' = _hitpoints s /\
  _speed s' = _speed s /\ _speed_bonus s' = _speed_bonus s /\
  isalive s' = isalive s /\ isvisible s' = isvisible s /\
  isinvincible s' = isinvincible s /\ ismoving s' = ismoving s /\
  curr_state s' = curr_state s /\ prev_heading s' = prev_heading s /\
  killed_log s' = killed_log s.
Proof.
  unfold move. destruct (ismoving s) eqn:Hm; cbn [negb]; intros H.
  - bind_inv H. bind_inv H. bind_inv H.
    destruct (fleb _ _).
    + unfold step in H. bind_inv H. bind_inv H. bind_inv H. bind_inv H.
      injection H as <-. cbn. repeat split; try reflexivity; exact Hm.
    + injection H as <-. cbn. repeat split; try reflexivity; exact Hm.
  - injection H as <-. repeat split; try reflexivity; exact Hm.
Qed.

Lemma move_total (s : Snake) :
  can_move s -> exists s', move game s = Ok s'.
Proof.
  intros [Hm | (Hb & Hh & Hd)].
  - exists s. unfold move. rewrite Hm. reflexivity.
  - destruct (ismoving s) eqn:Hm.
    + destruct (body s) as [|b0 rest] eqn:Eb; [congruence|].
      destruct (heading s) as [h|] eqn:Eh; [|congruence].
      rewrite (move_eq s b0 rest Hm Eb Hd).
      destruct (fleb _ _); [|eexists; reflexivity].
      rewrite (step_eq _ (toroidal game b0) rest h);
        [| reflexivity | exact Eh | exact Hd].
      rewrite resolve_growth_firstn by (simpl; lia).
      eexists; reflexivity.
    + exists s. unfold move. rewrite Hm. reflexivity.
Qed.

(** Whatever the movement state, a frame of a living creature ends in
    one call of [move]; the states differ in what comes before it. *)
Lemma update_alive (s : Snake) (dt : num) :
  isalive s = true ->
  update cfg game s dt =
  let s1 := if ismoving s
            then with_elapsed_t s (elapsed_t s + dt)%num else s in
  match curr_state s1 with
  | SnakeNormalState => move game s1
  | SnakeInvincibleState lt el eb =>
      move game (invincible_tick cfg s1 lt el eb dt)
  end.
Proof.
  intros Ha. unfold update, state_update. rewrite Ha. reflexivity.
Qed.

(** The timers of the invincible state leave the attributes that
    [move] reads as they are. *)
Lemma invincible_tick_motion (s : Snake) (lt el eb dt : num) :
  let s' := invincible_tick cfg s lt el eb dt in
  body s' = body s /\ heading s' = heading s /\
  _speed s' = _speed s /\ _speed_bonus s' = _speed_bonus s /\
  elapsed_t s' = elapsed_t s /\ grow s' = grow s /\
  ismoving s' = ismoving s /\ prev s' = prev s.
Proof.
  unfold invincible_tick, blink, change_state, leave_invincible.
  destruct (fleb (INVINCIBILITY_BLINK_RATE cfg) (fadd eb dt));
    destruct (fleb lt (fadd el dt)); cbn; repeat split; reflexivity.
Qed.

(** C10. A frame of a creature that is not alive changes nothing:
    [update] returns the creature as it was. *)
Theorem update_dead (s : Snake) (dt : num) :
  isalive s = false -> update cfg game s dt = Ok s.
Proof.
  intros Ha. unfold update. rewrite Ha. reflexivity.
Qed.

End Frames.

Section Cadence.

Context {A : Arith}.

Variable cfg : Settings.
Variable game : Game.

(** When the accumulated time has reached the cadence, [move] takes
    one step: one new head, the cadence off the accumulator. *)
Lemma move_steps_once (m : Snake) (b0 : vec) (rest : list vec) (h : vec) :
  ismoving m = true ->
  body m = b0 :: rest ->
  heading m = Some h ->
  (_speed m + _speed_bonus m =? of_Q 0)%num = false ->
  (of_Q 1 / (_speed m + _speed_bonus m) <=? elapsed_t m)%num = true ->
  exists s' k,
    move game m = Ok s' /\
    elapsed_t s' =
      (elapsed_t m - of_Q 1 / (_speed m + _speed_bonus m))%num /\
    prev s' = toroidal game b0 :: rest /\
    body s' =
      add_vecs (toroidal game b0) h
      :: firstn k (toroidal game b0 :: rest) /\
    resolve_growth (grow m)
      (add_vecs (toroidal game b0) h :: toroidal game b0 :: rest)
    = Ok (body s', grow s').
Proof.
  intros Hm Hb Hh Hd Hc.
  rewrite (move_eq game m b0 rest Hm Hb Hd).
  rewrite Hc.
  rewrite (step_eq _ (toroidal game b0) rest h);
    [| reflexivity | exact Hh | exact Hd].
  cbn [grow elapsed_t _speed _speed_bonus with_body].
  set (bd := add_vecs (toroidal game b0) h :: toroidal game b0 :: rest).
  assert (Hlen : (2 <= length bd)%nat) by (unfold bd; simpl; lia).
  rewrite (resolve_growth_firstn (grow m) bd Hlen).
  cbn [bind].
  destruct (grow m =? 0) eqn:E0; [|destruct (0 <? grow m) eqn:E1].
  - eexists. exists (length rest).
    split; [reflexivity|]. unfold bd. cbn. repeat split; reflexivity.
  - eexists. exists (S (length rest)).
    split; [reflexivity|]. unfold bd. cbn. rewrite firstn_all.
    repeat split; reflexivity.
  - eexists.
    exists (Nat.max 2 (length bd - Z.to_nat (- grow m + 1)) - 1)%nat.
    split; [reflexivity|].
    cbn [elapsed_t prev body grow with_grow with_body with_elapsed_t
         with_prev fst snd].
    repeat split; try reflexivity.
    destruct (Nat.max 2 (length bd - Z.to_nat (- grow m + 1)))
      as [|j] eqn:Ej; [lia|].
    replace (S j - 1)%nat with j by lia. reflexivity.
Qed.

(** Short of the cadence, [move] only wraps the head. *)
Lemma move_waits (m : Snake) (b0 : vec) (rest : list vec) :
  ismoving m = true ->
  body m = b0 :: rest ->
  (_speed m + _speed_bonus m =? of_Q 0)%num = false ->
  (of_Q 1 / (_speed m + _speed_bonus m) <=? elapsed_t m)%num = false ->
  move game m = Ok (with_body m (toroidal game b0 :: rest)).
Proof.
  intros Hm Hb Hd Hc.
  rewrite (move_eq game m b0 rest Hm Hb Hd). rewrite Hc. reflexivity.
Qed.

(** The two lemmas together: what [move] does to a creature that
    moves, by the outcome of its comparison. *)
Lemma move_cases (m : Snake) (b0 : vec) (rest : list vec) (h : vec) :
  ismoving m = true ->
  body m = b0 :: rest ->
  heading m = Some h ->
  (_speed m + _speed_bonus m =? of_Q 0)%num = false ->
  exists s',
    move game m = Ok s' /\
    if (of_Q 1 / (_speed m + _speed_bonus m) <=? elapsed_t m)%num
    then
      elapsed_t s' =
        (elapsed_t m - of_Q 1 / (_speed m + _speed_bonus m))%num /\
      prev s' = toroidal game b0 :: rest /\
      (exists k,
          body s' =
            add_vecs (toroidal game b0) h
            :: firstn k (toroidal game b0 :: rest)) /\
      resolve_growth (grow m)
        (add_vecs (toroidal game b0) h :: toroidal game b0 :: rest)
      = Ok (body s', grow s')
    else
      elapsed_t s' = elapsed_t m /\
      body s' = toroidal game b0 :: rest /\
      prev s' = prev m /\
      grow s' = grow m.
Proof.
  intros Hm Hb Hh Hd.
  destruct (of_Q 1 / (_speed m + _speed_bonus m) <=? elapsed_t m)%num
    eqn:Hc.
  - destruct (move_steps_once m b0 rest h Hm Hb Hh Hd Hc)
      as (s' & k & H1 & H2 & H3 & H4 & H5).
    exists s'. split; [exact H1|]. split; [exact H2|]. split; [exact H3|].
    split; [exists k; exact H4 | exact H5].
  - rewrite (move_waits m b0 rest Hm Hb Hd Hc).
    eexists. split; [reflexivity|]. repeat split.
Qed.

(** C4 (amended). In a frame of a living, moving creature the frame's
    time is added to [elapsed_t], and the sum is compared with the
    cadence [1 / (_speed + _speed_bonus)], all in the creature's
    arithmetic.  When the sum has reached the cadence, [update] takes
    exactly one step, however far the cadence is exceeded: [prev]
    takes the body, one new head is put before a prefix of it, and
    [elapsed_t] keeps the difference of the sum and the cadence for
    the next frame.  When it has not, no step is taken and
    [elapsed_t] keeps the sum. *)
Theorem update_steps_once (s : Snake) (dt : num) (b0 : vec)
        (rest : list vec) (h : vec) :
  isalive s = true ->
  ismoving s = true ->
  body s = b0 :: rest ->
  heading s = Some h ->
  (_speed s + _speed_bonus s =? of_Q 0)%num = false ->
  exists s',
    update cfg game s dt = Ok s' /\
    if (of_Q 1 / (_speed s + _speed_bonus s) <=? elapsed_t s + dt)%num
    then
      elapsed_t s' =
        (elapsed_t s + dt - of_Q 1 / (_speed s + _speed_bonus s))%num /\
      prev s' = toroidal game b0 :: rest /\
      (exists k,
          body s' =
            add_vecs (toroidal game b0) h
            :: firstn k (toroidal game b0 :: rest)) /\
      resolve_growth (grow s)
        (add_vecs (toroidal game b0) h :: toroidal game b0 :: rest)
      = Ok (body s', grow s')
    else
      elapsed_t s' = (elapsed_t s + dt)%num /\
      body s' = toroidal game b0 :: rest /\
      prev s' = prev s /\
      grow s' = grow s.
Proof.
  intros Ha Hm Hb Hh Hd.
  rewrite (update_alive cfg game s dt Ha). rewrite Hm. cbv zeta.
  set (s1 := with_elapsed_t s (elapsed_t s + dt)%num).
  destruct (curr_state s1) as [|lt el eb].
  - exact (move_cases s1 b0 rest h Hm Hb Hh Hd).
  - destruct (invincible_tick_motion cfg s1 lt el eb dt)
      as (Tb & Th & Ts & Tsb & Te & Tg & Tm & Tp).
    set (m := invincible_tick cfg s1 lt el eb dt) in *.
    destruct (move_cases m b0 rest h) as (s' & H1 & H2);
      [ rewrite Tm; exact Hm | rewrite Tb; exact Hb
      | rewrite Th; exact Hh | rewrite Ts, Tsb; exact Hd |].
    exists s'. split; [exact H1|].
    rewrite Ts, Tsb, Te, Tg, Tp in H2. exact H2.
Qed.


(** X23. The frame in which the lifetime runs out: the creature is
    back in the normal state, visible and not invincible, whatever the
    blink did before. *)
Lemma invincible_update_expiry (s : Snake) (lt el eb dt : num) :
  isalive s = true ->
  curr_state s = SnakeInvincibleState lt el eb ->
  can_move s ->
  (lt <=? el + dt)%num = true ->
  exists s',
    update cfg game s dt = Ok s' /\
    curr_state s' = SnakeNormalState /\
    isvisible s' = true /\ isinvincible s' = false.
Proof.
  intros Ha Hst Hcm Hlt.
  rewrite (update_alive cfg game s dt Ha). cbv zeta.
  set (s1 := if ismoving s
             then with_elapsed_t s (elapsed_t s + dt)%num else s).
  assert (Hs1 : curr_state s1 = curr_state s /\ can_move s1).
  { unfold s1. destruct (ismoving s) eqn:Hm.
    - split; [reflexivity|]. destruct Hcm as [Hf|Hcm]; [congruence|].
      right. exact Hcm.
    - split; [reflexivity | exact Hcm]. }
  destruct Hs1 as (Hc1 & Hcm1). rewrite Hc1, Hst.
  destruct (invincible_tick_motion cfg s1 lt el eb dt)
    as (Tb & Th & Ts & Tsb & _ & _ & Tm & _).
  destruct (move_total game (invincible_tick cfg s1 lt el eb dt))
    as (s' & Hmove).
  { destruct Hcm1 as [Hf | (H1 & H2 & H3)].
    - left. rewrite Tm. exact Hf.
    - right. rewrite Tb, Th, Ts, Tsb. repeat split; assumption. }
  exists s'. split; [exact Hmove|].
  apply move_frame in Hmove.
  destruct Hmove as (_ & _ & _ & _ & _ & Hv & Hi & _ & Hc & _).
  rewrite Hv, Hi, Hc. unfold invincible_tick, blink.
  rewrite Hlt.
  destruct (INVINCIBILITY_BLINK_RATE cfg <=? eb + dt)%num;
    repeat split.
Qed.

(** [move] never empties a body. *)
Lemma move_body_nonempty (s s' : Snake) :
  move game s = Ok s' -> body s <> [] -> body s' <> [].
Proof.
  unfold move. destruct (ismoving s); cbn [negb]; intros H Hne.
  - bind_inv H. rename x into b0. bind_inv H. rename x into bd.
    bind_inv H.
    assert (Hbd : (1 <= length bd)%nat).
    { destruct (body s); [discriminate E0|].
      cbn [set_first] in E0. injection E0 as <-. simpl. lia. }
    destruct (fleb _ _).
    + unfold step in H. bind_inv H. bind_inv H. bind_inv H. bind_inv H.
      injection H as <-. cbn [body with_grow with_body].
      cbn [body grow with_elapsed_t with_prev with_body] in E5.
      destruct x3 as [bd' g']. cbn [fst].
      apply (resolve_growth_nonempty _ _ _ _ E5). cbn [length]. lia.
    + injection H as <-. cbn [body with_body]. intros ->. simpl in Hbd. lia.
  - injection H as <-. exact Hne.
Qed.

(** A frame keeps a living creature alive and able to move. *)
Lemma update_keeps (s s' : Snake) (dt : num) :
  update cfg game s dt = Ok s' ->
  isalive s = true -> can_move s ->
  isalive s' = true /\ can_move s'.
Proof.
  intros H Ha Hcm. rewrite (update_alive cfg game s dt Ha) in H.
  cbv zeta in H.
  set (s1 := if ismoving s
             then with_elapsed_t s (elapsed_t s + dt)%num else s) in H.
  assert (F1 : body s1 = body s /\ heading s1 = heading s /\
               _speed s1 = _speed s /\ _speed_bonus s1 = _speed_bonus s /\
               ismoving s1 = ismoving s /\ isalive s1 = isalive s)
    by (unfold s1; destruct (ismoving s) eqn:Em;
        repeat split; try reflexivity; exact Em).
  destruct F1 as (B1 & H1 & S1 & SB1 & M1 & A1).
  assert (F2 : exists m, move game m = Ok s' /\ body m = body s /\
               heading m = heading s /\ _speed m = _speed s /\
               _speed_bonus m = _speed_bonus s /\
               ismoving m = ismoving s /\ isalive m = isalive s).
  { destruct (curr_state s1) as [|lt el eb].
    - exists s1. repeat split; assumption.
    - exists (invincible_tick cfg s1 lt el eb dt). split; [exact H|].
      destruct (invincible_tick_motion cfg s1 lt el eb dt)
        as (Tb & Th & Ts & Tsb & _ & _ & Tm & _).
      rewrite Tb, Th, Ts, Tsb, Tm. repeat split; try assumption.
      rewrite <- A1.
      unfold invincible_tick, blink, change_state, leave_invincible.
      destruct (fleb (INVINCIBILITY_BLINK_RATE cfg) (fadd eb dt));
        destruct (fleb lt (fadd el dt)); reflexivity. }
  destruct F2 as (m & Hmove & Bm & Hm & Sm & SBm & Mm & Am).
  pose proof (move_body_nonempty m s' Hmove) as Hne.
  apply move_frame in Hmove.
  destruct Hmove as (Hh & _ & Hs & Hsb & Hal & _ & _ & Hmv & _).
  split; [rewrite Hal, Am; exact Ha|].
  destruct Hcm as [Hf | (C1 & C2 & C3)].
  - left. rewrite Hmv, Mm. exact Hf.
  - right. rewrite Hh, Hs, Hsb, Hm, Sm, SBm.
    split; [apply Hne; rewrite Bm; exact C1|]. split; assumption.
Qed.

End Cadence.

(** ** Damage *)

Section Damage.

Context {A : Arith}.

Variable cfg : Settings.
Variable normalize : vec -> vec.

Lemma set_hitpoints_frame (s : Snake) (v : Z) :
  let s' := set_hitpoints cfg s v in
  body s' = body s /\ prev s' = prev s /\ _speed s' = _speed s /\
  isalive s' = isalive s /\ killed_log s' = killed_log s /\
  isinvincible s' = isinvincible s.
Proof.
  unfold set_hitpoints.
  destruct (MAX_HITPOINTS cfg <? v); [|destruct (v <? 0)];
    repeat split; reflexivity.
Qed.

Lemma set_speed_frame (s : Snake) (v : num) :
  let s' := set_speed cfg s v in
  _hitpoints s' = _hitpoints s /\ isalive s' = isalive s /\
  killed_log s' = killed_log s /\ isinvincible s' = isinvincible s.
Proof.
  unfold set_speed.
  destruct (fltb (MAX_SPEED cfg) v);
    [|destruct (fltb v (MIN_SPEED cfg))];
    repeat split; reflexivity.
Qed.

Lemma enter_invincible_frame (s : Snake) (lt : num) :
  let s' := enter_invincible s lt in
  _hitpoints s' = _hitpoints s /\ isalive s' = isalive s /\
  killed_log s' = killed_log s /\ _speed s' = _speed s.
Proof.
  unfold enter_invincible, change_state, leave_invincible.
  cbn [curr_state with_isinvincible].
  destruct (curr_state s); repeat split; reflexivity.
Qed.

Lemma apply_damage_frame (s s' : Snake) (dmg : Z) (sb : bool)
      (sh : Z) (sl : num) :
  apply_damage cfg s dmg sb sh sl = Ok s' ->
  isalive s' = isalive s /\ killed_log s' = killed_log s.
Proof.
  unfold apply_damage. intros H. bind_inv H. injection H as <-.
  unfold gain_speed.
  destruct (set_speed_frame
              (with_prev
                 (with_body (set_hitpoints cfg s (_hitpoints s - dmg))
                    (fst x)) (snd x))
              (_speed
                 (with_prev
                    (with_body (set_hitpoints cfg s (_hitpoints s - dmg))
                       (fst x)) (snd x)) + - sl)%num)
    as (_ & Ha & Hk & _).
  rewrite Ha, Hk. cbn [isalive killed_log with_prev with_body].
  destruct (set_hitpoints_frame s (_hitpoints s - dmg))
    as (_ & _ & _ & Ha' & Hk' & _).
  split; assumption.
Qed.

Lemma set_back_frame (s s' : Snake) :
  set_back normalize s = Ok s' ->
  _hitpoints s' = _hitpoints s /\ isalive s' = isalive s /\
  killed_log s' = killed_log s /\ _speed s' = _speed s /\
  isinvincible s' = isinvincible s.
Proof.
  unfold set_back. intros H. bind_inv H. bind_inv H. injection H as <-.
  repeat split; reflexivity.
Qed.

Lemma set_speed_prev (s : Snake) (v : num) :
  prev (set_speed cfg s v) = prev s.
Proof.
  unfold set_speed.
  destruct (fltb (MAX_SPEED cfg) v);
    [|destruct (fltb v (MIN_SPEED cfg))]; reflexivity.
Qed.

(** The setback block returns when [prev] has two cells. *)
Lemma set_back_total (s : Snake) :
  (2 <= length (prev s))%nat -> exists s', set_back normalize s = Ok s'.
Proof.
  intros Hlen. unfold set_back. cbn [body with_body].
  destruct (py_index_in_range (prev s) 0) as (b0 & H0 & _); [lia|].
  destruct (py_index_in_range (prev s) 1) as (b1 & H1 & _); [lia|].
  rewrite H0, H1. cbn [bind]. eexists. reflexivity.
Qed.

(** A body of exactly two cells stops the shrink loop at once. *)
Lemma shrink_loop_two (n : nat) (sb : bool) (bd pv : list vec) :
  length bd = 2%nat -> shrink_loop n sb bd pv = Ok (bd, pv).
Proof.
  intros H. destruct n as [|n]; cbn [shrink_loop]; [reflexivity|].
  rewrite H. reflexivity.
Qed.

(** The death check by itself. *)
Lemma death_check_cases (s : Snake) (dealt_by : Z) :
  let s' := death_check s dealt_by in
  _hitpoints s' = _hitpoints s /\
  (_hitpoints s <= 0 ->
   isalive s' = false /\ killed_log s' = killed_log s ++ [dealt_by]) /\
  (0 < _hitpoints s ->
   isalive s' = isalive s /\ killed_log s' = killed_log s).
Proof.
  unfold death_check.
  destruct (Z.leb_spec (_hitpoints s) 0) as [Hle|Hgt]; cbn.
  - split; [reflexivity|]. split; [intros _; split; reflexivity | lia].
  - split; [reflexivity|]. split; [lia | intros _; split; reflexivity].
Qed.

(** C5. [take_damage] ends with the death check.  Whenever the call
    returns, hitpoints that are then zero or less mean that [isalive]
    is false and that the handler was called once more, with the
    attacker; positive hitpoints mean that neither [isalive] nor the
    handler was touched.  The call returns whenever no setback is
    asked for and the body has two cells, and whenever a setback is
    asked for and [prev] keeps two cells after the shrink phase.  The
    check does
    not depend on the damage having been applied: a hit that an
    invincible creature absorbs, at hitpoints zero or less, marks it
    dead and calls the handler. *)
Theorem take_damage_death_check (s : Snake) (dmg dealt_by : Z)
        (setback invincible : bool) (invinc_lifetime : num)
        (shrink : Z) (slowdown : num) :
  (forall s',
      take_damage cfg normalize s dmg dealt_by setback invincible
                  invinc_lifetime shrink slowdown = Ok s' ->
      (_hitpoints s' <= 0 ->
       isalive s' = false /\ killed_log s' = killed_log s ++ [dealt_by]) /\
      (0 < _hitpoints s' ->
       isalive s' = isalive s /\ killed_log s' = killed_log s)) /\
  (setback = false -> (2 <= length (body s))%nat ->
   exists s',
     take_damage cfg normalize s dmg dealt_by setback invincible
                 invinc_lifetime shrink slowdown = Ok s') /\
  (setback = true ->
   (2 + (if isinvincible s || (length (body s) =? 2)%nat
         then 0 else Z.to_nat shrink) <= length (prev s))%nat ->
   exists s',
     take_damage cfg normalize s dmg dealt_by setback invincible
                 invinc_lifetime shrink slowdown = Ok s') /\
  (isinvincible s = true -> setback = false -> _hitpoints s <= 0 ->
   exists s',
     take_damage cfg normalize s dmg dealt_by setback invincible
                 invinc_lifetime shrink slowdown = Ok s' /\
     _hitpoints s' = _hitpoints s /\
     isalive s' = false /\
     killed_log s' = killed_log s ++ [dealt_by]).
Proof.
  split; [|split; [|split]].
  - intros s' H. unfold take_damage in H.
    bind_inv H. rename x into s1, E into H1.
    bind_inv H. rename x into s2, E into H2.
    injection H as <-.
    assert (F1 : isalive s1 = isalive s /\ killed_log s1 = killed_log s).
    { destruct (negb (isinvincible s)).
      - exact (apply_damage_frame _ _ _ _ _ _ H1).
      - injection H1 as <-. split; reflexivity. }
    assert (F2 : isalive s2 = isalive s1 /\ killed_log s2 = killed_log s1).
    { destruct setback.
      - destruct (set_back_frame _ _ H2) as (_ & Ha & Hk & _).
        split; assumption.
      - injection H2 as <-. split; reflexivity. }
    set (s3 := if invincible && negb (isinvincible s2)
               then enter_invincible s2 invinc_lifetime else s2).
    assert (F3 : isalive s3 = isalive s2 /\ killed_log s3 = killed_log s2).
    { unfold s3. destruct (invincible && negb (isinvincible s2)).
      - destruct (enter_invincible_frame s2 invinc_lifetime)
          as (_ & Ha & Hk & _).
        split; assumption.
      - split; reflexivity. }
    destruct F1 as [A1 K1], F2 as [A2 K2], F3 as [A3 K3].
    destruct (death_check_cases s3 dealt_by) as (Hhp & Hdead & Hlive).
    rewrite Hhp. rewrite <- A1, <- K1, <- A2, <- K2, <- A3, <- K3.
    split; assumption.
  - intros -> Hlen. unfold take_damage.
    destruct (negb (isinvincible s)).
    + unfold apply_damage.
      destruct (set_hitpoints_frame s (_hitpoints s - dmg))
        as (Hb & _).
      rewrite shrink_loop_body, Hb.
      rewrite move_shrink_loop_firstn by exact Hlen.
      cbn [bind]. eexists. reflexivity.
    + cbn [bind]. eexists. reflexivity.
  - intros -> Hlen. unfold take_damage.
    destruct (isinvincible s) eqn:Hinv; cbn [negb orb] in *.
    + cbn [bind]. destruct (set_back_total s) as (s2 & H2); [lia|].
      rewrite H2. cbn [bind]. eexists. reflexivity.
    + unfold apply_damage.
      destruct (set_hitpoints_frame s (_hitpoints s - dmg))
        as (Hb & Hp & _).
      rewrite Hb, Hp.
      assert (Hloop : exists pv,
                 shrink_loop (Z.to_nat shrink) true (body s) (prev s)
                 = Ok (body s, pv) /\ (2 <= length pv)%nat).
      { destruct (Nat.eqb_spec (length (body s)) 2) as [E|E].
        - exists (prev s). split; [apply shrink_loop_two; exact E | lia].
        - eexists. split; [apply shrink_loop_prev; [exact E | lia]|].
          rewrite length_firstn. lia. }
      destruct Hloop as (pv & Hloop & Hpv). rewrite Hloop. cbn [bind fst snd].
      unfold gain_speed.
      set (s1 := set_speed cfg _ _).
      destruct (set_back_total s1) as (s2 & H2).
      { unfold s1. rewrite set_speed_prev. exact Hpv. }
      rewrite H2. cbn [bind]. eexists. reflexivity.
  - intros Hinv -> Hhp. unfold take_damage. rewrite Hinv.
    cbn [negb bind]. rewrite Hinv. rewrite andb_false_r.
    eexists. split; [reflexivity|].
    destruct (death_check_cases s dealt_by) as (H1 & H2 & _).
    destruct (H2 Hhp) as [Ha Hk].
    repeat split; assumption.
Qed.

End Damage.

(** ** Speed and the cadence divisor *)

Section Speed.

Variable cfg : @Settings rational.
Variable game : Game.
Variable normalize : vec -> vec.

Hypothesis min_le_init : (MIN_SPEED cfg <= INIT_SPEED cfg)%Q.
Hypothesis init_le_max : (INIT_SPEED cfg <= MAX_SPEED cfg)%Q.

Lemma Qlt_bool_false (x y : Q) : Qlt_bool x y = false -> (y <= x)%Q.
Proof.
  unfold Qlt_bool. intros H. apply negb_false_iff in H.
  apply Qle_bool_iff. exact H.
Qed.

(** The setter clamps whatever it is given. *)
Lemma set_speed_ok (s : Snake) (v : Q) : speed_ok cfg (set_speed cfg s v).
Proof.
  unfold speed_ok, set_speed. cbn [fltb rational].
  destruct (Qlt_bool (MAX_SPEED cfg) v) eqn:E1;
    [|destruct (Qlt_bool v (MIN_SPEED cfg)) eqn:E2]; cbn [_speed with_speed].
  - split; lra.
  - split; lra.
  - apply Qlt_bool_false in E1, E2. split; assumption.
Qed.

Lemma init_speed_ok (pos : vec) : speed_ok cfg (init cfg pos).
Proof. unfold speed_ok. cbn [_speed init]. split; assumption. Qed.

Lemma take_damage_speed_ok (s s' : Snake) (dmg by_ : Z) (sb inv : bool)
      (lt : Q) (sh : Z) (sl : Q) :
  speed_ok cfg s ->
  take_damage cfg normalize s dmg by_ sb inv lt sh sl = Ok s' ->
  speed_ok cfg s'.
Proof.
  intros Hs H. unfold take_damage in H.
  bind_inv H. rename x into s1, E into H1.
  bind_inv H. rename x into s2, E into H2.
  injection H as <-.
  assert (F1 : speed_ok cfg s1).
  { destruct (negb (isinvincible s)).
    - unfold apply_damage in H1. bind_inv H1. injection H1 as <-.
      apply set_speed_ok.
    - injection H1 as <-. exact Hs. }
  assert (F2 : speed_ok cfg s2).
  { destruct sb.
    - destruct (set_back_frame normalize _ _ H2) as (_ & _ & _ & Hsp & _).
      unfold speed_ok. rewrite Hsp. exact F1.
    - injection H2 as <-. exact F1. }
  set (s3 := if inv && negb (isinvincible s2)
             then enter_invincible s2 lt else s2).
  assert (F3 : _speed s3 = _speed s2).
  { unfold s3. destruct (inv && negb (isinvincible s2)).
    - destruct (enter_invincible_frame s2 lt) as (_ & _ & _ & Hsp).
      exact Hsp.
    - reflexivity. }
  unfold speed_ok.
  replace (_speed (death_check s3 by_)) with (_speed s3)
    by (unfold death_check; destruct (_hitpoints s3 <=? 0); reflexivity).
  rewrite F3. exact F2.
Qed.

(** A frame changes neither the speed nor the speed bonus. *)
Lemma update_speed (s s' : Snake) (dt : Q) :
  update cfg game s dt = Ok s' ->
  _speed s' = _speed s /\ _speed_bonus s' = _speed_bonus s.
Proof.
  unfold update, state_update.
  destruct (negb (isalive s)); intros H.
  - injection H as <-. split; reflexivity.
  - set (s1 := if ismoving s
               then with_elapsed_t s (elapsed_t s + dt)%num else s) in *.
    assert (H1 : _speed s1 = _speed s /\ _speed_bonus s1 = _speed_bonus s)
      by (unfold s1; destruct (ismoving s); split; reflexivity).
    destruct H1 as [E1 E2].
    destruct (curr_state s1) as [|lt el eb].
    + apply move_frame in H. destruct H as (_ & _ & Hs & Hb & _).
      rewrite Hs, Hb. split; assumption.
    + apply move_frame in H. destruct H as (_ & _ & Hs & Hb & _).
      destruct (invincible_tick_motion cfg s1 lt el eb dt)
        as (_ & _ & Ts & Tb & _).
      rewrite Hs, Hb, Ts, Tb. split; assumption.
Qed.

Lemma apply_op_speed_ok (o : op) (s s' : Snake) :
  speed_ok cfg s ->
  apply_op cfg game normalize o s = Ok s' ->
  speed_ok cfg s'.
Proof.
  intros Hs H. destruct o; cbn [apply_op] in H;
    try (injection H as <-).
  - apply set_speed_ok.
  - exact Hs.
  - apply set_speed_ok.
  - unfold speed_ok.
    destruct (set_hitpoints_frame cfg s value) as (_ & _ & E & _).
    rewrite E. exact Hs.
  - unfold speed_ok, gain_hitpoints.
    destruct (set_hitpoints_frame cfg s (_hitpoints s + hitpoints))
      as (_ & _ & E & _).
    destruct (MAX_HITPOINTS cfg <?
              _hitpoints (set_hitpoints cfg s (_hitpoints s + hitpoints))).
    + destruct (set_hitpoints_frame cfg
                  (set_hitpoints cfg s (_hitpoints s + hitpoints))
                  (MAX_HITPOINTS cfg)) as (_ & _ & E' & _).
      rewrite E', E. exact Hs.
    + rewrite E. exact Hs.
  - exact Hs.
  - exact (take_damage_speed_ok _ _ _ _ _ _ _ _ _ Hs H).
  - unfold speed_ok, respawn. cbv zeta.
    cbn [_speed with_elapsed_t].
    match goal with
    | |- context [enter_invincible ?X ?lt] =>
        destruct (enter_invincible_frame X lt) as (_ & _ & _ & E);
        rewrite E
    end.
    match goal with
    | |- context [set_hitpoints cfg ?X ?v] =>
        destruct (set_hitpoints_frame cfg X v) as (_ & _ & E' & _);
        rewrite E'
    end.
    cbn [_speed with_isalive with_ismoving with_prev_heading
                with_heading with_speed].
    split; assumption.
  - destruct (update_speed _ _ _ H) as [E _].
    unfold speed_ok. rewrite E. exact Hs.
  - exact Hs.
  - exact Hs.
Qed.

Lemma run_speed_ok (ops : list op) (s s' : Snake) :
  speed_ok cfg s ->
  run cfg game normalize ops s = Ok s' ->
  speed_ok cfg s'.
Proof.
  revert s. induction ops as [|o ops IH]; intros s Hs H; cbn [run] in H.
  - injection H as <-. exact Hs.
  - bind_inv H. apply (IH x); [|exact H].
    exact (apply_op_speed_ok o s x Hs E).
Qed.

(** C2 (amended). In every reachable creature the speed lies between
    [MIN_SPEED] and [MAX_SPEED], so that it is positive when
    [MIN_SPEED] is; the speed bonus is not bounded, and the divisor
    [_speed + _speed_bonus] of the cadence is positive, and the
    division defined, as long as the bonus is above [- MIN_SPEED].
    The bounds are those of the order of the rational numbers: the
    creature is taken over the exact arithmetic here. *)
Theorem reachable_speed_clamped (s : Snake) :
  (0 < MIN_SPEED cfg)%Q ->
  reachable cfg game normalize s ->
  (MIN_SPEED cfg <= _speed s)%Q /\
  (_speed s <= MAX_SPEED cfg)%Q /\
  (0 < _speed s)%Q /\
  ((- MIN_SPEED cfg < _speed_bonus s)%Q ->
   (0 < _speed s + _speed_bonus s)%Q /\
   cadence s = Ok (1 / (_speed s + _speed_bonus s))%Q).
Proof.
  intros Hmin (pos & ops & Hrun).
  destruct (run_speed_ok ops _ _ (init_speed_ok pos) Hrun) as [Hlo Hhi].
  split; [exact Hlo|]. split; [exact Hhi|]. split; [lra|].
  intros Hb. assert (Hpos : (0 < _speed s + _speed_bonus s)%Q) by lra.
  split; [exact Hpos|].
  assert (Hd : Qeq_bool (_speed s + _speed_bonus s) 0 = false).
  { destruct (Qeq_bool (_speed s + _speed_bonus s) 0) eqn:E;
      [|reflexivity].
    apply Qeq_bool_iff in E. rewrite E in Hpos.
    exfalso. exact (Qlt_irrefl 0 Hpos). }
  exact (cadence_defined (A := rational) s Hd).
Qed.

End Speed.

(** ** Rendering *)

Lemma contiguous_nth (bd : list vec) (i : nat) (a b : vec) :
  contiguous bd = true ->
  nth_error bd i = Some a ->
  nth_error bd (S i) = Some b ->
  m_distance a b = 1.
Proof.
  revert i. induction bd as [|x bd IH]; intros i Hc Ha Hb.
  - destruct i; discriminate Ha.
  - destruct bd as [|y bd']; [destruct i; discriminate Hb|].
    cbn [contiguous] in Hc. apply andb_true_iff in Hc. destruct Hc as [H1 H2].
    destruct i as [|i].
    + cbn in Ha, Hb. injection Ha as <-. injection Hb as <-.
      apply Z.eqb_eq. exact H1.
    + apply (IH i); [exact H2 | exact Ha | exact Hb].
Qed.

Section DrawFacts.

Context {A : Arith}.

Variable game : Game.
Variable normalize : vec -> vec.

Hypothesis normalize_cardinal :
  forall u, is_cardinal u = true -> normalize u = u.

(** With the heading unset or zero, the head and the tail take the
    sprites that face West. *)
Lemma no_heading_west (s : Snake) (body_len : Z) :
  has_heading s = false ->
  head_area s = Ok (mkRect 0 10 10 10) /\
  tail_area normalize s body_len = Ok (mkRect 20 10 10 10).
Proof.
  intros H. unfold tail_area. rewrite H.
  unfold head_area. unfold has_heading in H.
  destruct (heading s) as [h|]; [rewrite H|]; split; reflexivity.
Qed.

Lemma head_area_defined (s : Snake) :
  heading_drawable s = true -> exists r, head_area s = Ok r.
Proof.
  unfold heading_drawable, head_area.
  destruct (heading s) as [h|]; [|eexists; reflexivity].
  destruct (vec_eqb h (0, 0)); cbn [orb negb]; intros H.
  - eexists; reflexivity.
  - apply is_cardinal_cases in H.
    destruct H as [-> | [-> | [-> | ->]]]; eexists; reflexivity.
Qed.

Lemma interior_area_defined (s : Snake) (index : Z) :
  contiguous (body s) = true ->
  0 < index < Z.of_nat (length (body s)) - 1 ->
  exists r, interior_area game normalize s index = Ok r.
Proof.
  intros Hc Hi.
  destruct (py_index_in_range (body s) (index - 1)) as (a & Ha & Na); [lia|].
  destruct (py_index_in_range (body s) index) as (b & Hb & Nb); [lia|].
  destruct (py_index_in_range (body s) (index + 1)) as (c & Hc' & Nc); [lia|].
  replace (Z.to_nat index) with (S (Z.to_nat (index - 1))) in Nb by lia.
  pose proof (contiguous_nth _ _ _ _ Hc Na Nb) as Dab.
  replace (S (Z.to_nat (index - 1))) with (Z.to_nat index) in Nb by lia.
  replace (Z.to_nat (index + 1)) with (S (Z.to_nat index)) in Nc by lia.
  pose proof (contiguous_nth _ _ _ _ Hc Nb Nc) as Dbc.
  rewrite m_distance_sym in Dbc.
  unfold interior_area, get_arrangement. rewrite Ha, Hb, Hc'. cbn [bind].
  rewrite resolve_a_near, resolve_c_near by lia.
  destruct (classify_adjacent a b c Dab Dbc) as (f & Hf & Hcases).
  rewrite Hf. cbn [bind].
  destruct (negb (index mod 2 =? 0));
    destruct Hcases as [-> | [-> | [-> | [-> | [-> | ->]]]]];
    eexists; reflexivity.
Qed.

Lemma tail_area_defined (s : Snake) :
  contiguous (body s) = true ->
  (2 <= length (body s))%nat ->
  exists r, tail_area normalize s (Z.of_nat (length (body s))) = Ok r.
Proof.
  intros Hc Hlen. unfold tail_area.
  destruct (has_heading s); [|eexists; reflexivity].
  set (n := Z.of_nat (length (body s))).
  destruct (py_index_in_range (body s) (n - 2)) as (p & Hp & Np);
    [unfold n; lia|].
  destruct (py_index_in_range (body s) (n - 1)) as (q & Hq & Nq);
    [unfold n; lia|].
  replace (Z.to_nat (n - 1)) with (S (Z.to_nat (n - 2))) in Nq
    by (unfold n; lia).
  pose proof (contiguous_nth _ _ _ _ Hc Np Nq) as Dpq.
  rewrite Hp, Hq. cbn [bind].
  apply adjacent_cardinal in Dpq.
  rewrite (normalize_cardinal _ Dpq).
  apply is_cardinal_cases in Dpq.
  destruct Dpq as [-> | [-> | [-> | ->]]]; eexists; reflexivity.
Qed.

Lemma part_area_defined (s : Snake) (index : Z) :
  heading_drawable s = true ->
  contiguous (body s) = true ->
  0 <= index < Z.of_nat (length (body s)) ->
  exists r,
    part_area game normalize s (Z.of_nat (length (body s))) index = Ok r.
Proof.
  intros Hh Hc Hi. unfold part_area.
  destruct (Z.eqb_spec index 0) as [E|E].
  - apply head_area_defined. exact Hh.
  - destruct (Z.ltb_spec 0 index) as [_|]; [|lia].
    destruct (Z.ltb_spec index (Z.of_nat (length (body s)) - 1));
      cbn [andb].
    + apply interior_area_defined; [exact Hc | lia].
    + apply tail_area_defined; [exact Hc | lia].
Qed.

Lemma draw_parts_defined (s : Snake) (body_len : Z) (parts : list vec) :
  forall index,
    (forall i, index <= i < index + Z.of_nat (length parts) ->
               exists r, part_area game normalize s body_len i = Ok r) ->
    exists calls,
      draw_parts game normalize s body_len index parts = Ok calls /\
      map fst calls = parts.
Proof.
  induction parts as [|part rest IH]; intros index H.
  - exists []. split; reflexivity.
  - cbn [draw_parts].
    destruct (H index) as (r & Hr); [cbn [length]; lia|].
    destruct (IH (index + 1)) as (calls & Hcalls & Hmap).
    { intros i Hi. apply H. cbn [length]. lia. }
    rewrite Hr, Hcalls. cbn [bind].
    exists ((part, r) :: calls). split; [reflexivity|].
    cbn [map fst]. rewrite Hmap. reflexivity.
Qed.

(** C9 (amended). A heading that is unset or zero makes the head and
    the tail fall back to the sprites that face West.  There is no
    other fallback; the flag lookups of [draw], those of the
    resolver's turn branch included, are all defined when the heading
    is unset, zero or one of the four directions and every body cell
    is one step from the next: [draw] then returns, with one call of
    the drawing backend per body cell. *)
Theorem draw_lookups_defined (s : Snake) :
  heading_drawable s = true ->
  contiguous (body s) = true ->
  (exists calls,
      draw game normalize s = Ok calls /\
      (isalive s = true -> isvisible s = true ->
       map fst calls = body s)) /\
  (has_heading s = false ->
   head_area s = Ok (mkRect 0 10 10 10) /\
   forall body_len,
     tail_area normalize s body_len = Ok (mkRect 20 10 10 10)).
Proof.
  intros Hh Hc. split.
  - unfold draw.
    destruct (isalive s); cbn [negb];
      [|exists []; split; [reflexivity | discriminate]].
    destruct (isvisible s);
      [|exists []; split; [reflexivity | discriminate]].
    destruct (draw_parts_defined s (Z.of_nat (length (body s))) (body s) 0)
      as (calls & Hcalls & Hmap).
    { intros i Hi. apply part_area_defined; [exact Hh | exact Hc | lia]. }
    exists calls. split; [exact Hcalls | intros _ _; exact Hmap].
  - intros Hn. split.
    + exact (proj1 (no_heading_west s 0 Hn)).
    + intros body_len. exact (proj2 (no_heading_west s body_len Hn)).
Qed.

End DrawFacts.

(** ** Instances *)

(** C2 (as worded). The speed bonus is not clamped: the reachable
    creature of [cancel_speed] moves, has [MIN_SPEED > 0] and a speed
    within its bounds, and yet its divisor [_speed + _speed_bonus] is
    zero; its next frame raises [ZeroDivisionError].  This is so over
    the rationals and over the floats. *)
Lemma speed_bonus_cancels_speed :
  (exists s,
      reachable exact_settings0 game10 sign_normalize s /\
      (0 < MIN_SPEED exact_settings0)%Q /\
      (MIN_SPEED exact_settings0 <= _speed s)%Q /\
      ~ (0 < _speed s + _speed_bonus s)%Q /\
      update exact_settings0 game10 s (1 # 10)%Q
      = Raise ZeroDivisionError) /\
  (exists s,
      reachable settings0 game10 sign_normalize s /\
      (0 <? MIN_SPEED settings0)%float = true /\
      (MIN_SPEED settings0 <=? _speed s)%float = true /\
      (_speed s + _speed_bonus s =? 0)%float = true /\
      update settings0 game10 s 0.1%float = Raise ZeroDivisionError).
Proof.
  split.
  - eexists. split.
    + exists (4, 4), cancel_speed. vm_compute. reflexivity.
    + split; [reflexivity|]. split; [vm_compute; discriminate|].
      split; [vm_compute; discriminate | reflexivity].
  - eexists. split.
    + exists (4, 4), cancel_speed. vm_compute. reflexivity.
    + repeat split.
Qed.

(** C2 on the creature of [slow_down]: its speed was sent to fifty and
    stored as [MAX_SPEED], then lowered by a hundred and stored as
    [MIN_SPEED]; with a bonus of minus one half the divisor is one
    half, and the cadence is defined. *)
Lemma reachable_speed_clamped_witness :
  exists s,
    run exact_settings0 game10 sign_normalize slow_down
        (init exact_settings0 (4, 4)) = Ok s /\
    (_speed s == MIN_SPEED exact_settings0)%Q /\
    (_speed_bonus s == - (1 # 2))%Q /\
    (0 < _speed s + _speed_bonus s)%Q /\
    cadence s = Ok (1 / (_speed s + _speed_bonus s))%Q.
Proof.
  assert (H1 : (MIN_SPEED exact_settings0 <= INIT_SPEED exact_settings0)%Q)
    by (vm_compute; discriminate).
  assert (H2 : (INIT_SPEED exact_settings0 <= MAX_SPEED exact_settings0)%Q)
    by (vm_compute; discriminate).
  assert (H3 : (0 < MIN_SPEED exact_settings0)%Q) by reflexivity.
  destruct (run exact_settings0 game10 sign_normalize slow_down
                (init exact_settings0 (4, 4))) as [s|e] eqn:H;
    [|vm_compute in H; discriminate H].
  exists s. split; [reflexivity|].
  assert (H4 : reachable exact_settings0 game10 sign_normalize s)
    by (exists (4, 4), slow_down; exact H).
  destruct (reachable_speed_clamped exact_settings0 game10 sign_normalize
              H1 H2 s H3 H4) as (_ & _ & _ & Hdiv).
  vm_compute in H. injection H as <-.
  split; [reflexivity|]. split; [reflexivity|].
  apply Hdiv. reflexivity.
Defined.

(** The float that a literal denotes is the one that Rocq's own
    reading of the decimal gives. *)
Example literals_are_nearest_floats :
  @of_Q binary64 (2 # 10) = 0.2%float /\
  @of_Q binary64 (35 # 10) = 3.5%float /\
  @of_Q binary64 (1 # 10) = 0.1%float /\
  @of_Q binary64 5 = 5%float /\
  @of_Q binary64 0 = 0%float.
Proof. repeat split. Qed.

(** C4 (as worded). The example of the specification in the
    creature's arithmetic: at a speed of ten with no bonus the cadence
    is a tenth, and three frames of four hundredths take exactly one
    step; but the accumulator is then left at 0.01999999999999999,
    the float difference of 0.12 and 0.1, which is not the float
    0.02. *)
Lemma three_frames_leave_less_than_worded :
  exists s3,
    cadence (six_cells 0 0) = Ok 0.1%float /\
    updates settings0 game10 (six_cells 0 0) [0.04; 0.04; 0.04]%float
    = Ok s3 /\
    body s3 = [(2, 4); (3, 4); (4, 4); (5, 4); (6, 4); (7, 4)] /\
    elapsed_t s3 = 0.01999999999999999%float /\
    (elapsed_t s3 =? 0.02)%float = false /\
    elapsed_t s3 <> 0.02%float.
Proof.
  eexists. split; [reflexivity|]. split; [vm_compute; reflexivity|].
  split; [reflexivity|]. split; [reflexivity|]. split; [reflexivity|].
  intros H.
  apply (f_equal (fun x => (x =? 0.02)%float)) in H.
  vm_compute in H. discriminate H.
Qed.

(** C4 on the third of those frames: eight hundredths are accumulated,
    the frame adds four, the sum has reached the cadence and the step
    is taken. *)
Lemma update_steps_once_witness :
  exists s',
    update settings0 game10 (six_cells 0 0.08) 0.04%float = Ok s' /\
    elapsed_t s' = (0.08 + 0.04 - 1 / (10 + 0))%float /\
    elapsed_t s' = 0.01999999999999999%float /\
    prev s' = [(3, 4); (4, 4); (5, 4); (6, 4); (7, 4); (8, 4)] /\
    exists k,
      body s' =
        (2, 4) :: firstn k [(3, 4); (4, 4); (5, 4); (6, 4); (7, 4); (8, 4)].
Proof.
  destruct (update_steps_once settings0 game10 (six_cells 0 0.08)
              0.04%float (3, 4) [(4, 4); (5, 4); (6, 4); (7, 4); (8, 4)] LEFT)
    as (s' & Hu & Hcase); try reflexivity.
  change (elapsed_t s' = (0.08 + 0.04 - 1 / (10 + 0))%float /\
          prev s' = [(3, 4); (4, 4); (5, 4); (6, 4); (7, 4); (8, 4)] /\
          (exists k,
              body s' =
                (2, 4)
                :: firstn k [(3, 4); (4, 4); (5, 4); (6, 4); (7, 4); (8, 4)]) /\
          resolve_growth 0
            [(2, 4); (3, 4); (4, 4); (5, 4); (6, 4); (7, 4); (8, 4)]
          = Ok (body s', grow s')) in Hcase.
  destruct Hcase as (He & Hp & Hk & _).
  exists s'. split; [exact Hu|]. split; [exact He|].
  split; [rewrite He; reflexivity|]. split; [exact Hp | exact Hk].
Defined.

(** The three frames one by one: no step in the first two, one step in
    the third. *)
Example three_frames_one_step :
  exists s2 s3,
    updates settings0 game10 (six_cells 0 0) [0.04; 0.04]%float = Ok s2 /\
    body s2 = body (six_cells 0 0) /\
    elapsed_t s2 = 0.08%float /\
    update settings0 game10 s2 0.04%float = Ok s3 /\
    body s3 = [(2, 4); (3, 4); (4, 4); (5, 4); (6, 4); (7, 4)] /\
    elapsed_t s3 = 0.01999999999999999%float.
Proof.
  eexists. eexists. split; [vm_compute; reflexivity|].
  split; [reflexivity|]. split; [reflexivity|].
  split; [vm_compute; reflexivity|].
  split; reflexivity.
Qed.

(** A frame that finds three cadences accumulated still takes one step
    only; the rest stays in the accumulator. *)
Example late_frame_one_step :
  exists s',
    update settings0 game10 (six_cells 0 0) 0.3%float = Ok s' /\
    body s' = [(2, 4); (3, 4); (4, 4); (5, 4); (6, 4); (7, 4)] /\
    elapsed_t s' = (0.3 - 0.1)%float /\
    elapsed_t s' = 0.19999999999999998%float.
Proof.
  eexists. split; [vm_compute; reflexivity|]. repeat split.
Qed.

(** The comparison is made on the accumulated float: at a speed of one,
    ten frames of a tenth accumulate 0.9999999999999999, which has not
    reached the cadence of one, and no step is taken in them; the next
    frame takes it. *)
Example ten_tenths_fall_short :
  exists s10 s11,
    cadence slow_six_cells = Ok 1%float /\
    updates settings0 game10 slow_six_cells (repeat 0.1%float 10)
    = Ok s10 /\
    body s10 = body slow_six_cells /\
    elapsed_t s10 = 0.9999999999999999%float /\
    update settings0 game10 s10 0.1%float = Ok s11 /\
    body s11 = [(2, 4); (3, 4); (4, 4); (5, 4); (6, 4); (7, 4)].
Proof.
  eexists. eexists. split; [reflexivity|].
  split; [vm_compute; reflexivity|].
  split; [reflexivity|]. split; [reflexivity|].
  split; [vm_compute; reflexivity|]. reflexivity.
Qed.

Lemma update_dead_witness :
  update settings0 game10 (with_isalive (six_cells 0 0) false) 0.04%float
  = Ok (with_isalive (six_cells 0 0) false).
Proof.
  apply (update_dead settings0 game10). reflexivity.
Defined.


(** Frames of fifteen hundredths against a blink rate of two tenths:
    the second frame inverts [isvisible] and keeps the excess, just
    under a tenth, so that the third inverts it again (after a reset
    to zero it would not). *)
Example blink_keeps_overshoot :
  exists s2 s3,
    updates settings0 game10 snake0 [0.15; 0.15]%float = Ok s2 /\
    isvisible s2 = false /\
    curr_state s2 =
      (SnakeInvincibleState (A := binary64) 5 0.3 0.09999999999999998)%float /\
    update settings0 game10 s2 0.15%float = Ok s3 /\
    isvisible s3 = true /\
    curr_state s3 =
      (SnakeInvincibleState (A := binary64)
         5 0.44999999999999996 0.04999999999999996)%float.
Proof.
  eexists. eexists. split; [vm_compute; reflexivity|].
  split; [reflexivity|]. split; [reflexivity|].
  split; [vm_compute; reflexivity|]. split; reflexivity.
Qed.

(** The frame in which the lifetime runs out: the blink still inverts
    [isvisible] and keeps the excess, and leaving the state then makes
    the creature visible. *)
Example blink_then_leave :
  exists s',
    isvisible (blinking 5 4.9 0.19) = true /\
    isvisible (blink settings0 (blinking 5 4.9 0.19) 5 4.9 0.19 0.1)%float
    = false /\
    curr_state (blink settings0 (blinking 5 4.9 0.19) 5 4.9 0.19 0.1)%float
    = (SnakeInvincibleState (A := binary64) 5 5 (0.19 + 0.1 - 0.2))%float /\
    update settings0 game10 (blinking 5 4.9 0.19) 0.1%float = Ok s' /\
    curr_state s' = SnakeNormalState /\
    isvisible s' = true /\ isinvincible s' = false.
Proof.
  eexists. split; [reflexivity|]. split; [reflexivity|].
  split; [reflexivity|]. split; [vm_compute; reflexivity|].
  repeat split.
Qed.

(** The lifetime is compared with the accumulated float as well: fifty
    frames of a tenth accumulate 4.999999999999998, and the creature
    is still in its five seconds of invincibility. *)
Example fifty_tenths_fall_short :
  exists s' eb,
    updates settings0 game10 snake0 (repeat 0.1%float 50) = Ok s' /\
    curr_state s' =
      (SnakeInvincibleState (A := binary64) 5 4.999999999999998 eb)%float /\
    isinvincible s' = true.
Proof.
  eexists. eexists. split; [vm_compute; reflexivity|].
  split; reflexivity.
Qed.

(** A second hit on a creature that is already dead calls the handler
    again: the check looks at the hitpoints, not at [isalive]. *)
Example dead_creature_hit_again :
  exists s1 s2,
    take_damage settings0 sign_normalize (six_cells 0 0) 100 7
                false false 0%float 0 0%float = Ok s1 /\
    isalive s1 = false /\
    take_damage settings0 sign_normalize s1 1 8
                false false 0%float 0 0%float = Ok s2 /\
    killed_log s2 = [7; 8].
Proof.
  eexists. eexists. split; [vm_compute; reflexivity|].
  split; [reflexivity|]. split; reflexivity.
Qed.

Lemma take_damage_death_check_witness :
  exists s',
    take_damage settings0 sign_normalize (six_cells 0 0) 100 7
                false false 0%float 0 0%float = Ok s' /\
    isalive s' = false /\ killed_log s' = [7].
Proof.
  destruct (take_damage_death_check settings0 sign_normalize
              (six_cells 0 0) 100 7 false false 0%float 0 0%float)
    as (Hcheck & Hret & _ & _).
  destruct Hret as (s' & Hs); [reflexivity | simpl; lia |].
  exists s'. split; [exact Hs|].
  destruct (Hcheck s' Hs) as (Hdead & _).
  apply Hdead.
  vm_compute in Hs. injection Hs as <-. vm_compute. discriminate.
Defined.

(** C9 (as worded). No fallback covers a vector that is neither zero
    nor a unit step: on [gap_body] the resolver's turn branch looks up
    [bc = (-2, 0)] and [draw] raises; so does the head lookup for a
    heading of two steps. *)
Lemma draw_lookup_can_fail :
  isalive (still_snake gap_body None) = true /\
  isvisible (still_snake gap_body None) = true /\
  draw game10 sign_normalize (still_snake gap_body None) = Raise KeyError /\
  head_area (still_snake [(4, 4); (5, 4)] (Some (2, 0))) = Raise KeyError.
Proof. repeat split. Qed.

Lemma draw_lookups_defined_witness :
  exists calls,
    draw game10 sign_normalize
         (still_snake [(4, 4); (4, 5); (5, 5); (6, 5)] (Some UP)) = Ok calls /\
    map fst calls = [(4, 4); (4, 5); (5, 5); (6, 5)].
Proof.
  assert (Hn : forall u, is_cardinal u = true -> sign_normalize u = u).
  { intros u Hu. apply is_cardinal_cases in Hu.
    destruct Hu as [-> | [-> | [-> | ->]]]; reflexivity. }
  destruct (draw_lookups_defined game10 sign_normalize Hn
              (still_snake [(4, 4); (4, 5); (5, 5); (6, 5)] (Some UP)))
    as ((calls & Hd & Hm) & _).
  - reflexivity.
  - reflexivity.
  - exists calls. split; [exact Hd|]. apply Hm; reflexivity.
Defined.

(** * Further properties *)

(** ** Setters *)

Section Setters.

Context {A : Arith}.

Variable cfg : Settings.

Lemma set_hitpoints_only (s : Snake) (v : Z) :
  set_hitpoints cfg s v =
  with_hitpoints s (if MAX_HITPOINTS cfg <? v then MAX_HITPOINTS cfg
                    else if v <? 0 then 0 else v).
Proof.
  unfold set_hitpoints.
  destruct (MAX_HITPOINTS cfg <? v); [|destruct (v <? 0)]; reflexivity.
Qed.

Lemma set_speed_only (s : Snake) (v : num) :
  exists v', set_speed cfg s v = with_speed s v'.
Proof.
  unfold set_speed.
  destruct (fltb (MAX_SPEED cfg) v);
    [|destruct (fltb v (MIN_SPEED cfg))]; eexists; reflexivity.
Qed.

(** The hitpoints setter stores a value within the bounds. *)
Lemma set_hitpoints_bounds (s : Snake) (v : Z) :
  0 <= MAX_HITPOINTS cfg ->
  0 <= _hitpoints (set_hitpoints cfg s v) <= MAX_HITPOINTS cfg.
Proof.
  intros Hmax. rewrite set_hitpoints_only. cbn [_hitpoints with_hitpoints].
  destruct (Z.ltb_spec (MAX_HITPOINTS cfg) v); [lia|].
  destruct (Z.ltb_spec v 0); lia.
Qed.

(** X1. [gain_hitpoints] is one clamped assignment: its closing test
    [self.hitpoints > MAX_HITPOINTS] never changes the creature, since
    the setter has clamped the sum already. *)
Theorem gain_hitpoints_clamps_once (s : Snake) (hitpoints : Z) :
  gain_hitpoints cfg s hitpoints
  = set_hitpoints cfg s (_hitpoints s + hitpoints).
Proof.
  unfold gain_hitpoints.
  rewrite (set_hitpoints_only s (_hitpoints s + hitpoints)).
  cbn [_hitpoints with_hitpoints].
  set (v := _hitpoints s + hitpoints).
  destruct (Z.ltb_spec (MAX_HITPOINTS cfg) v) as [H1|H1].
  - rewrite Z.ltb_irrefl. reflexivity.
  - destruct (Z.ltb_spec v 0) as [H2|H2].
    + destruct (Z.ltb_spec (MAX_HITPOINTS cfg) 0) as [H3|H3];
        [|reflexivity].
      rewrite set_hitpoints_only. rewrite Z.ltb_irrefl.
      destruct (Z.ltb_spec (MAX_HITPOINTS cfg) 0); [reflexivity | lia].
    + destruct (Z.ltb_spec (MAX_HITPOINTS cfg) v); [lia | reflexivity].
Qed.

End Setters.

(** ** Hits *)

Lemma py_index_Ok_range {A : Type} (l : list A) (i : Z) (x : A) :
  py_index l i = Ok x ->
  - Z.of_nat (length l) <= i < Z.of_nat (length l).
Proof.
  unfold py_index.
  destruct (Z.ltb_spec i 0) as [Hneg|Hpos].
  - destruct (Z.ltb_spec (i + Z.of_nat (length l)) 0); [discriminate|].
    destruct (Z.leb_spec (Z.of_nat (length l)) (i + Z.of_nat (length l)));
      [discriminate|]. intros _. lia.
  - destruct (Z.ltb_spec i 0); [lia|].
    destruct (Z.leb_spec (Z.of_nat (length l)) i); [discriminate|].
    intros _. lia.
Qed.

Lemma axis_sign_sgn (p q : Z) : axis_sign p q = Z.sgn (p - q).
Proof.
  unfold axis_sign.
  destruct (Z.ltb_spec q p); [lia|]. destruct (Z.ltb_spec p q); lia.
Qed.

Lemma sign_normalize_adjacent (u v : vec) :
  m_distance u v = 1 -> sign_normalize (sub_vecs u v) = sub_vecs u v.
Proof.
  intros H. apply adjacent_cardinal, is_cardinal_cases in H.
  destruct H as [-> | [-> | [-> | ->]]]; reflexivity.
Qed.

Section Hits.

Context {A : Arith}.

Variable cfg : Settings.
Variable normalize : vec -> vec.

(** The setback block on a [prev] of two cells or more, written out. *)
Lemma set_back_eq (s : Snake) (p0 p1 : vec) (rest : list vec) :
  prev s = p0 :: p1 :: rest ->
  set_back normalize s =
  Ok (with_prev_heading
        (set_heading normalize (with_body s (prev s))
           (sign_normalize (sub_vecs p0 p1)))
        (Some (sign_normalize (sub_vecs p0 p1)))).
Proof.
  intros Hp. unfold set_back. cbn [body with_body].
  destruct (py_index_in_range (prev s) 0) as (b0 & H0 & N0);
    [rewrite Hp; simpl; lia|].
  destruct (py_index_in_range (prev s) 1) as (b1 & H1 & N1);
    [rewrite Hp; simpl; lia|].
  rewrite H0, H1. cbn [bind].
  rewrite Hp in N0, N1. cbn in N0, N1.
  injection N0 as <-. injection N1 as <-.
  rewrite !axis_sign_sgn. reflexivity.
Qed.

(** The setback block returns only on a [prev] of two cells or more,
    which then becomes the body. *)
Lemma set_back_result (s s' : Snake) :
  set_back normalize s = Ok s' ->
  (2 <= length (prev s))%nat /\ body s' = prev s /\ prev s' = prev s.
Proof.
  unfold set_back. cbn [body with_body]. intros H.
  bind_inv H. bind_inv H. injection H as <-.
  apply py_index_Ok_range in E0.
  split; [lia|]. split; reflexivity.
Qed.

(** X2. The setback block makes [prev] the body, and turns the creature
    to face along its first two cells, from the second cell to the
    head: [prev_heading] becomes the sign of that difference, axis by
    axis, and [heading] its [normalize] (zero when the two cells are
    the same).  For two cells one step apart that is their
    difference. *)
Theorem set_back_faces_forward (s : Snake) (p0 p1 : vec) (rest : list vec) :
  prev s = p0 :: p1 :: rest ->
  exists s',
    set_back normalize s = Ok s' /\
    body s' = p0 :: p1 :: rest /\
    prev s' = p0 :: p1 :: rest /\
    prev_heading s' = Some (sign_normalize (sub_vecs p0 p1)) /\
    heading s' =
      Some (if vec_eqb p0 p1 then (0, 0)
            else normalize (sign_normalize (sub_vecs p0 p1))) /\
    (m_distance p0 p1 = 1 ->
     prev_heading s' = Some (sub_vecs p0 p1) /\
     heading s' = Some (normalize (sub_vecs p0 p1))).
Proof.
  intros Hp. rewrite (set_back_eq s p0 p1 rest Hp).
  eexists. split; [reflexivity|].
  cbn [body prev prev_heading heading with_prev_heading set_heading
       with_heading with_body].
  assert (Hz : vec_eqb (sign_normalize (sub_vecs p0 p1)) (0, 0)
               = vec_eqb p0 p1).
  { destruct (vec_eqb p0 p1) eqn:E.
    - apply vec_eqb_eq in E. subst p1. apply vec_eqb_eq.
      destruct p0 as [x0 y0]. unfold sign_normalize, sub_vecs.
      cbn [fst snd]. rewrite !Z.sub_diag. reflexivity.
    - destruct (vec_eqb (sign_normalize (sub_vecs p0 p1)) (0, 0)) eqn:E2;
        [|reflexivity].
      apply vec_eqb_eq in E2. exfalso.
      assert (Heq : p0 = p1).
      { destruct p0 as [x0 y0], p1 as [x1 y1].
        unfold sign_normalize, sub_vecs in E2. cbn [fst snd] in E2.
        injection E2 as Hx Hy. f_equal; lia. }
      subst p1.
      assert (Hrefl : vec_eqb p0 p0 = true) by (apply vec_eqb_eq; reflexivity).
      congruence. }
  rewrite Hz.
  split; [exact Hp|]. split; [exact Hp|]. split; [reflexivity|].
  assert (Hh : (if negb (vec_eqb p0 p1)
                then normalize (sign_normalize (sub_vecs p0 p1))
                else sign_normalize (sub_vecs p0 p1))
               = if vec_eqb p0 p1 then (0, 0)
                 else normalize (sign_normalize (sub_vecs p0 p1))).
  { destruct (vec_eqb p0 p1) eqn:E; cbn [negb]; [|reflexivity].
    apply vec_eqb_eq in E. subst p1.
    destruct p0 as [x0 y0]. unfold sign_normalize, sub_vecs. cbn [fst snd].
    rewrite !Z.sub_diag. reflexivity. }
  rewrite Hh. split; [reflexivity|].
  intros Hd. rewrite (sign_normalize_adjacent p0 p1 Hd).
  split; [reflexivity|].
  destruct (vec_eqb p0 p1) eqn:E; [|reflexivity].
  apply vec_eqb_eq in E. subst p1. unfold m_distance in Hd. lia.
Qed.

End Hits.

Ltac name_set_speed :=
  match goal with
  | |- context [set_speed ?c ?X ?v] =>
      let v' := fresh "v'" in
      let Hv := fresh "Hv" in
      destruct (set_speed_only c X v) as [v' Hv]; rewrite Hv; clear Hv
  end.

Section PlainHits.

Context {A : Arith}.

Variable cfg : Settings.
Variable normalize : vec -> vec.

(** A hit without setback on a creature that is not invincible,
    written out. *)
Lemma take_damage_plain_eq (s : Snake) (dmg dealt_by : Z) (inv : bool)
      (lt : num) (shrink : Z) (slowdown : num) :
  isinvincible s = false ->
  (2 <= length (body s))%nat ->
  take_damage cfg normalize s dmg dealt_by false inv lt shrink slowdown =
  Ok (death_check
        (let s1 :=
           gain_speed cfg
             (with_prev
                (with_body (set_hitpoints cfg s (_hitpoints s - dmg))
                   (firstn (Nat.max 2 (length (body s) - Z.to_nat shrink))
                      (body s)))
                (prev s))
             (- slowdown)%num in
         if inv then enter_invincible s1 lt else s1)
        dealt_by).
Proof.
  intros Hinv Hlen. unfold take_damage, apply_damage.
  rewrite Hinv. cbn [negb].
  destruct (set_hitpoints_frame cfg s (_hitpoints s - dmg)) as (Hb & Hp & _).
  rewrite shrink_loop_body, Hb, Hp.
  rewrite move_shrink_loop_firstn by exact Hlen.
  cbn [bind fst snd]. unfold gain_speed. name_set_speed.
  rewrite set_hitpoints_only.
  cbn [isinvincible with_speed with_prev with_body with_hitpoints].
  rewrite Hinv. cbn [negb]. rewrite andb_true_r. reflexivity.
Qed.

(** X3. A hit without setback on a creature that is not invincible
    takes [shrink] cells from the tail of the body, but leaves two: the
    body becomes a prefix of itself, so the head and the cell behind it
    stay where they are; [prev] and the heading are not touched, and
    the hitpoints are clamped after the damage is taken off. *)
Theorem take_damage_shrinks_tail (s : Snake) (dmg dealt_by : Z) (inv : bool)
        (lt : num) (shrink : Z) (slowdown : num) :
  isinvincible s = false ->
  (2 <= length (body s))%nat ->
  exists s',
    take_damage cfg normalize s dmg dealt_by false inv lt shrink slowdown
    = Ok s' /\
    body s' =
      firstn (Nat.max 2 (length (body s) - Z.to_nat shrink)) (body s) /\
    length (body s') = Nat.max 2 (length (body s) - Z.to_nat shrink) /\
    prev s' = prev s /\
    heading s' = heading s /\
    _hitpoints s' =
      (if MAX_HITPOINTS cfg <? _hitpoints s - dmg then MAX_HITPOINTS cfg
       else if _hitpoints s - dmg <? 0 then 0 else _hitpoints s - dmg).
Proof.
  intros Hinv Hlen.
  rewrite (take_damage_plain_eq s dmg dealt_by inv lt shrink slowdown
             Hinv Hlen).
  eexists. split; [reflexivity|]. cbv zeta.
  unfold gain_speed. name_set_speed. rewrite set_hitpoints_only.
  assert (Hl : length (firstn (Nat.max 2 (length (body s) - Z.to_nat shrink))
                         (body s))
               = Nat.max 2 (length (body s) - Z.to_nat shrink))
    by (rewrite length_firstn; lia).
  remember (firstn (Nat.max 2 (length (body s) - Z.to_nat shrink)) (body s))
    as bd eqn:Hbd.
  remember (Nat.max 2 (length (body s) - Z.to_nat shrink)) as k eqn:Hk.
  remember (if MAX_HITPOINTS cfg <? _hitpoints s - dmg
            then MAX_HITPOINTS cfg
            else if _hitpoints s - dmg <? 0 then 0
                 else _hitpoints s - dmg) as hp' eqn:Hhp'.
  unfold death_check, enter_invincible, change_state, leave_invincible.
  destruct inv;
    cbn [curr_state _hitpoints with_isinvincible with_curr_state
         with_isvisible with_speed with_prev with_body with_hitpoints];
    destruct (curr_state s);
    cbn [curr_state _hitpoints with_isinvincible with_curr_state
         with_isvisible with_speed with_prev with_body with_hitpoints];
    destruct (hp' <=? 0);
    cbn [body prev heading _hitpoints killed_event with_isalive
         with_isinvincible with_curr_state with_isvisible with_speed
         with_prev with_body with_hitpoints];
    (split; [reflexivity|]); (split; [exact Hl|]);
    repeat split; reflexivity.
Qed.

(** X4. On a creature that is not invincible, a hit without setback
    kills exactly when the damage is not less than the hitpoints: then
    the hitpoints are zero, [isalive] is false and the handler is
    called once with the attacker; otherwise the creature keeps
    positive hitpoints, and [isalive] and the handler are left alone. *)
Theorem take_damage_kills_iff (s : Snake) (dmg dealt_by : Z) (inv : bool)
        (lt : num) (shrink : Z) (slowdown : num) :
  isinvincible s = false ->
  (2 <= length (body s))%nat ->
  0 < _hitpoints s <= MAX_HITPOINTS cfg ->
  exists s',
    take_damage cfg normalize s dmg dealt_by false inv lt shrink slowdown
    = Ok s' /\
    (_hitpoints s <= dmg ->
     _hitpoints s' = 0 /\ isalive s' = false /\
     killed_log s' = killed_log s ++ [dealt_by]) /\
    (dmg < _hitpoints s ->
     0 < _hitpoints s' /\ isalive s' = isalive s /\
     killed_log s' = killed_log s).
Proof.
  intros Hinv Hlen Hhp.
  rewrite (take_damage_plain_eq s dmg dealt_by inv lt shrink slowdown
             Hinv Hlen).
  eexists. split; [reflexivity|]. cbv zeta.
  unfold gain_speed. name_set_speed. rewrite set_hitpoints_only.
  remember (if MAX_HITPOINTS cfg <? _hitpoints s - dmg
            then MAX_HITPOINTS cfg
            else if _hitpoints s - dmg <? 0 then 0
                 else _hitpoints s - dmg) as hp' eqn:Hhp'.
  remember (firstn (Nat.max 2 (length (body s) - Z.to_nat shrink)) (body s))
    as bd eqn:Hbd.
  assert (Hdead : _hitpoints s <= dmg -> hp' = 0).
  { intros H. subst hp'.
    destruct (Z.ltb_spec (MAX_HITPOINTS cfg) (_hitpoints s - dmg)); [lia|].
    destruct (Z.ltb_spec (_hitpoints s - dmg) 0); lia. }
  assert (Hlive : dmg < _hitpoints s -> 0 < hp').
  { intros H. subst hp'.
    destruct (Z.ltb_spec (MAX_HITPOINTS cfg) (_hitpoints s - dmg)); [lia|].
    destruct (Z.ltb_spec (_hitpoints s - dmg) 0); lia. }
  clear Hhp' Hbd.
  unfold death_check, enter_invincible, change_state, leave_invincible.
  destruct inv;
    cbn [curr_state _hitpoints with_isinvincible with_curr_state
         with_isvisible with_speed with_prev with_body with_hitpoints];
    destruct (curr_state s);
    cbn [curr_state _hitpoints with_isinvincible with_curr_state
         with_isvisible with_speed with_prev with_body with_hitpoints];
    (destruct (Z.leb_spec hp' 0) as [Hle|Hgt];
     cbn [_hitpoints isalive killed_log killed_event with_isalive
          with_isinvincible with_curr_state with_isvisible with_speed
          with_prev with_body with_hitpoints];
     (split;
      [ intros H; try (specialize (Hlive ltac:(lia)); lia);
        try (pose proof (Hdead H); lia);
        repeat split; try reflexivity; exact (Hdead H)
      | intros H; try (pose proof (Hdead ltac:(lia)); lia);
        try (pose proof (Hlive H); lia);
        repeat split; try reflexivity; exact (Hlive H) ])).
Qed.

End PlainHits.

Section Setbacks.

Context {A : Arith}.

Variable cfg : Settings.
Variable normalize : vec -> vec.

(** X5. Invincibility shields from the damage, the shrink and the
    slowdown, but not from the setback: a hit with setback on an
    invincible creature still makes [prev] the body, and leaves the
    hitpoints, the speed, the movement state and the invincibility as
    they are. *)
Theorem invincible_is_still_set_back (s : Snake) (dmg dealt_by : Z)
        (inv : bool) (lt : num) (shrink : Z) (slowdown : num)
        (p0 p1 : vec) (rest : list vec) :
  isinvincible s = true ->
  prev s = p0 :: p1 :: rest ->
  exists s',
    take_damage cfg normalize s dmg dealt_by true inv lt shrink slowdown
    = Ok s' /\
    body s' = p0 :: p1 :: rest /\
    prev s' = p0 :: p1 :: rest /\
    _hitpoints s' = _hitpoints s /\
    _speed s' = _speed s /\
    curr_state s' = curr_state s /\
    isinvincible s' = true.
Proof.
  intros Hinv Hp. unfold take_damage. rewrite Hinv. cbn [negb bind].
  rewrite (set_back_eq normalize s p0 p1 rest Hp). cbn [bind].
  cbn [isinvincible with_prev_heading set_heading with_heading with_body].
  rewrite Hinv. cbn [negb]. rewrite andb_false_r.
  eexists. split; [reflexivity|].
  unfold death_check.
  cbn [_hitpoints with_prev_heading set_heading with_heading with_body].
  destruct (_hitpoints s <=? 0);
    cbn [body prev _hitpoints _speed curr_state isinvincible killed_event
         with_isalive with_prev_heading set_heading with_heading with_body];
    repeat split; try assumption; reflexivity.
Qed.

(** X6. Granting invincibility in a hit builds the new state before
    the old one is left.  A creature in the normal state ends up
    invincible; one whose state object is still the invincible one,
    while its flag is off, gets a fresh invincible state but ends up
    with the flag off and visible, because the old state's [leave]
    runs last. *)
Theorem grant_after_leave (s : Snake) (dmg dealt_by : Z)
        (lt : num) (shrink : Z) (slowdown : num) :
  isinvincible s = false ->
  (2 <= length (body s))%nat ->
  exists s',
    take_damage cfg normalize s dmg dealt_by false true lt shrink slowdown
    = Ok s' /\
    curr_state s' = SnakeInvincibleState lt (of_Q 0) (of_Q 0) /\
    match curr_state s with
    | SnakeNormalState =>
        isinvincible s' = true /\ isvisible s' = isvisible s
    | SnakeInvincibleState _ _ _ =>
        isinvincible s' = false /\ isvisible s' = true
    end.
Proof.
  intros Hinv Hlen.
  rewrite (take_damage_plain_eq cfg normalize s dmg dealt_by true lt shrink
             slowdown Hinv Hlen).
  eexists. split; [reflexivity|]. cbv zeta.
  unfold gain_speed. name_set_speed. rewrite set_hitpoints_only.
  remember (firstn (Nat.max 2 (length (body s) - Z.to_nat shrink)) (body s))
    as bd eqn:Hbd.
  remember (if MAX_HITPOINTS cfg <? _hitpoints s - dmg
            then MAX_HITPOINTS cfg
            else if _hitpoints s - dmg <? 0 then 0
                 else _hitpoints s - dmg) as hp' eqn:Hhp'.
  unfold death_check, enter_invincible, change_state, leave_invincible.
  cbn [curr_state _hitpoints with_isinvincible with_curr_state
       with_isvisible with_speed with_prev with_body with_hitpoints].
  destruct (curr_state s);
    cbn [curr_state _hitpoints with_isinvincible with_curr_state
         with_isvisible with_speed with_prev with_body with_hitpoints];
    destruct (hp' <=? 0);
    cbn [curr_state isinvincible isvisible killed_event with_isalive
         with_isinvincible with_curr_state with_isvisible with_speed
         with_prev with_body with_hitpoints];
    repeat split; reflexivity.
Qed.

(** X7. [respawn] puts the creature on two cells at [pos], alive, at
    rest, without heading, at [INIT_SPEED] and with an empty
    accumulator, in a fresh invincible state of three and a half
    seconds.  It does not reset [prev], [grow], the speed bonus or the
    handler; and the creature is invincible afterwards only if its
    state before was the normal one: the [leave] of an old invincible
    state turns the flag off again. *)
Theorem respawn_resets (s : Snake) (pos : vec) :
  let s' := respawn cfg s pos in
  body s' = [pos; (fst pos + 1, snd pos)] /\
  heading s' = None /\ prev_heading s' = None /\
  isalive s' = true /\ ismoving s' = false /\
  _speed s' = INIT_SPEED cfg /\ elapsed_t s' = of_Q 0 /\
  curr_state s' = SnakeInvincibleState (of_Q (35 # 10)) (of_Q 0) (of_Q 0) /\
  prev s' = prev s /\ grow s' = grow s /\
  _speed_bonus s' = _speed_bonus s /\ killed_log s' = killed_log s /\
  isinvincible s' =
    match curr_state s with
    | SnakeNormalState => true
    | SnakeInvincibleState _ _ _ => false
    end.
Proof.
  unfold respawn. cbv zeta. rewrite set_hitpoints_only.
  unfold enter_invincible, change_state, leave_invincible.
  cbn [curr_state with_isinvincible with_hitpoints with_isalive
       with_ismoving with_prev_heading with_heading with_speed with_body].
  destruct (curr_state s); cbn; repeat split; reflexivity.
Qed.

(** X8. Since [respawn] keeps [prev], a hit with setback right after
    it brings the creature from its new place back to the snapshot
    taken before it was respawned. *)
Theorem setback_after_respawn_restores_old_prev (s : Snake) (pos : vec)
        (dmg dealt_by : Z) (inv : bool) (lt : num) (shrink : Z) (slowdown : num)
        (p0 p1 : vec) (rest : list vec) :
  prev s = p0 :: p1 :: rest ->
  exists s',
    take_damage cfg normalize (respawn cfg s pos) dmg dealt_by true inv lt
                shrink slowdown = Ok s' /\
    body s' = p0 :: p1 :: rest.
Proof.
  intros Hp.
  assert (Hr : body (respawn cfg s pos) = [pos; (fst pos + 1, snd pos)] /\
               prev (respawn cfg s pos) = prev s).
  { unfold respawn. cbv zeta. rewrite set_hitpoints_only.
    unfold enter_invincible, change_state, leave_invincible.
    cbn [curr_state with_isinvincible with_hitpoints with_isalive
         with_ismoving with_prev_heading with_heading with_speed with_body].
    destruct (curr_state s); split; reflexivity. }
  destruct Hr as (Hb & Hpv).
  set (r := respawn cfg s pos) in *.
  assert (Hpr : prev r = p0 :: p1 :: rest) by (rewrite Hpv; exact Hp).
  unfold take_damage.
  assert (H1 : exists s1,
             (if negb (isinvincible r)
              then apply_damage cfg r dmg true shrink slowdown
              else Ok r) = Ok s1 /\ prev s1 = p0 :: p1 :: rest).
  { destruct (isinvincible r); cbn [negb].
    - exists r. split; [reflexivity | exact Hpr].
    - unfold apply_damage.
      destruct (set_hitpoints_frame cfg r (_hitpoints r - dmg))
        as (Hb' & Hp' & _).
      rewrite Hb', Hp'.
      rewrite shrink_loop_two by (rewrite Hb; reflexivity).
      cbn [bind fst snd]. eexists. split; [reflexivity|].
      unfold gain_speed. rewrite set_speed_prev. exact Hpr. }
  destruct H1 as (s1 & -> & Hp1). cbn [bind].
  rewrite (set_back_eq normalize s1 p0 p1 rest Hp1). cbn [bind].
  eexists. split; [reflexivity|].
  unfold death_check, enter_invincible, change_state, leave_invincible.
  repeat match goal with
         | |- context [if ?b then _ else _] => destruct b
         end;
    cbn [curr_state with_isinvincible with_prev_heading set_heading
         with_heading with_body];
    try destruct (curr_state s1); cbn; exact Hp1.
Qed.

End Setbacks.

(** ** Steps *)

Section Steps.

Context {A : Arith}.

(** A step with a pending growth of zero or more, on a creature that
    can take one. *)
Lemma step_nonneg_growth (s : Snake) (b0 : vec) (rest : list vec) (h : vec) :
  body s = b0 :: rest ->
  heading s = Some h ->
  (_speed s + _speed_bonus s =? of_Q 0)%num = false ->
  0 <= grow s ->
  exists s',
    step s = Ok s' /\
    body s' =
      add_vecs b0 h
      :: (if grow s =? 0 then removelast (body s) else body s) /\
    grow s' = Z.max 0 (grow s - 1) /\
    prev s' = body s /\
    heading s' = heading s /\
    _speed s' = _speed s /\ _speed_bonus s' = _speed_bonus s /\
    isinvincible s' = isinvincible s.
Proof.
  intros Hb Hh Hd Hg.
  rewrite (step_eq s b0 rest h Hb Hh Hd).
  rewrite resolve_growth_firstn by (simpl; lia).
  destruct (Z.eqb_spec (grow s) 0) as [E|E].
  - cbn [bind fst snd]. eexists. split; [reflexivity|].
    cbn [body grow prev heading _speed _speed_bonus isinvincible
         with_grow with_body with_elapsed_t with_prev].
    rewrite Hb. split.
    + replace (length (add_vecs b0 h :: b0 :: rest) - 1)%nat
        with (S (length (b0 :: rest) - 1)) by (simpl; lia).
      cbn [firstn]. rewrite removelast_firstn_len.
      replace (pred (length (b0 :: rest)))
        with (length (b0 :: rest) - 1)%nat by lia.
      reflexivity.
    + repeat split; try reflexivity. lia.
  - destruct (Z.ltb_spec 0 (grow s)); [|lia].
    cbn [bind fst snd]. eexists. split; [reflexivity|].
    cbn [body grow prev heading _speed _speed_bonus isinvincible
         with_grow with_body with_elapsed_t with_prev].
    rewrite Hb. repeat split; try reflexivity. lia.
Qed.

(** X9. While growth is pending each step adds one cell and takes one
    off the counter; after that the length stays.  After [k] steps in
    a row a creature with [grow = n >= 0] is longer by the lesser of
    [k] and [n], and has [grow] at [n - k], or at 0 if that is
    negative. *)
Theorem steps_grow (k : nat) :
  forall (s : Snake) (h : vec),
    body s <> [] ->
    heading s = Some h ->
    (_speed s + _speed_bonus s =? of_Q 0)%num = false ->
    0 <= grow s ->
    exists s',
      steps k s = Ok s' /\
      length (body s') = (length (body s) + Nat.min k (Z.to_nat (grow s)))%nat /\
      grow s' = Z.max 0 (grow s - Z.of_nat k).
Proof.
  induction k as [|k IH]; intros s h Hne Hh Hd Hg.
  - exists s. cbn [steps]. split; [reflexivity|]. split; lia.
  - destruct (body s) as [|b0 rest] eqn:Hb; [congruence|].
    destruct (step_nonneg_growth s b0 rest h Hb Hh Hd Hg)
      as (s1 & Hs1 & Hb1 & Hg1 & _ & Hh1 & Hsp & Hsb & _).
    destruct (IH s1 h) as (s' & Hs' & Hlen & Hgr).
    + rewrite Hb1. discriminate.
    + rewrite Hh1. exact Hh.
    + rewrite Hsp, Hsb. exact Hd.
    + rewrite Hg1. lia.
    + exists s'. cbn [steps]. rewrite Hs1. cbn [bind].
      split; [exact Hs'|]. rewrite Hlen, Hgr, Hb1, Hg1, Hb.
      destruct (Z.eqb_spec (grow s) 0) as [E|E].
      * cbn [length]. rewrite removelast_firstn_len, length_firstn.
        cbn [length]. split; lia.
      * cbn [length]. split; lia.
Qed.

(** X10. In a step without pending growth the creature follows its
    head: the new head is the old one moved by the heading, every other
    cell takes the place of the cell before it, the last cell is given
    up, and [prev] keeps the body as it was. *)
Theorem step_follows_head (s : Snake) (b0 : vec) (rest : list vec) (h : vec) :
  body s = b0 :: rest ->
  heading s = Some h ->
  (_speed s + _speed_bonus s =? of_Q 0)%num = false ->
  grow s = 0 ->
  exists s',
    step s = Ok s' /\
    prev s' = body s /\
    length (body s') = length (body s) /\
    nth_error (body s') 0 = Some (add_vecs b0 h) /\
    forall i, (S i < length (body s))%nat ->
              nth_error (body s') (S i) = nth_error (body s) i.
Proof.
  intros Hb Hh Hd Hg.
  destruct (step_nonneg_growth s b0 rest h Hb Hh Hd)
    as (s' & Hs & Hb' & _ & Hp & _); [lia|].
  exists s'. split; [exact Hs|]. split; [exact Hp|].
  rewrite Hb', Hg. cbn [Z.eqb].
  rewrite removelast_firstn_len.
  split; [|split; [reflexivity|]].
  - cbn [length]. rewrite length_firstn. rewrite Hb. cbn [length]. lia.
  - intros i Hi. cbn [nth_error]. rewrite nth_error_firstn.
    destruct (Nat.ltb_spec i (pred (length (body s)))); [reflexivity | lia].
Qed.

End Steps.

Section StepBack.

Context {A : Arith}.

Variable cfg : Settings.
Variable normalize : vec -> vec.

(** A hit with setback that does not reach the shrink loop's pops
    makes [prev] the body. *)
Lemma take_damage_setback_unshrunk (s : Snake) (dmg dealt_by : Z)
      (inv : bool) (lt : num) (shrink : Z) (slowdown : num)
      (p0 p1 : vec) (rest : list vec) :
  prev s = p0 :: p1 :: rest ->
  shrink <= 0 ->
  exists s',
    take_damage cfg normalize s dmg dealt_by true inv lt shrink slowdown
    = Ok s' /\
    body s' = p0 :: p1 :: rest /\ prev s' = p0 :: p1 :: rest.
Proof.
  intros Hp Hsh. unfold take_damage.
  assert (H1 : exists s1,
             (if negb (isinvincible s)
              then apply_damage cfg s dmg true shrink slowdown
              else Ok s) = Ok s1 /\ prev s1 = p0 :: p1 :: rest).
  { destruct (isinvincible s); cbn [negb].
    - exists s. split; [reflexivity | exact Hp].
    - unfold apply_damage.
      replace (Z.to_nat shrink) with 0%nat by lia.
      cbn [shrink_loop bind fst snd]. eexists. split; [reflexivity|].
      unfold gain_speed. rewrite set_speed_prev.
      cbn [prev with_prev].
      destruct (set_hitpoints_frame cfg s (_hitpoints s - dmg))
        as (_ & Hp' & _).
      rewrite Hp'. exact Hp. }
  destruct H1 as (s1 & -> & Hp1). cbn [bind].
  rewrite (set_back_eq normalize s1 p0 p1 rest Hp1). cbn [bind].
  eexists. split; [reflexivity|].
  unfold death_check, enter_invincible, change_state, leave_invincible.
  repeat match goal with
         | |- context [if ?b then _ else _] => destruct b
         end;
    cbn [curr_state with_isinvincible with_prev_heading set_heading
         with_heading with_body];
    try destruct (curr_state s1); cbn; split; exact Hp1.
Qed.

(** X11. A hit with setback, and no shrink, right after a step undoes
    the step: the body is again what it was before the step. *)
Theorem setback_undoes_step (s : Snake) (dmg dealt_by : Z)
        (inv : bool) (lt : num) (shrink : Z) (slowdown : num)
        (b0 b1 : vec) (rest : list vec) (h : vec) :
  body s = b0 :: b1 :: rest ->
  heading s = Some h ->
  (_speed s + _speed_bonus s =? of_Q 0)%num = false ->
  shrink <= 0 ->
  exists s1 s2,
    step s = Ok s1 /\
    take_damage cfg normalize s1 dmg dealt_by true inv lt shrink slowdown
    = Ok s2 /\
    body s2 = body s.
Proof.
  intros Hb Hh Hd Hsh.
  assert (Hstep : exists s1, step s = Ok s1 /\ prev s1 = body s).
  { rewrite (step_eq s b0 (b1 :: rest) h Hb Hh Hd).
    rewrite resolve_growth_firstn by (simpl; lia).
    cbn [bind]. eexists. split; [reflexivity|].
    cbn [prev with_grow with_body with_elapsed_t with_prev].
    symmetry. exact Hb. }
  destruct Hstep as (s1 & Hs1 & Hp1). rewrite Hb in Hp1.
  destruct (take_damage_setback_unshrunk s1 dmg dealt_by inv lt shrink
              slowdown b0 b1 rest Hp1 Hsh) as (s2 & Hs2 & Hb2 & _).
  exists s1, s2. split; [exact Hs1|]. split; [exact Hs2|].
  rewrite Hb2, Hb. reflexivity.
Qed.

End StepBack.

(** ** Invariants of the reachable creatures *)

Lemma resolve_growth_two (g g' : Z) (bd bd' : list vec) :
  resolve_growth g bd = Ok (bd', g') ->
  (3 <= length bd)%nat -> (2 <= length bd')%nat.
Proof.
  intros H Hlen. rewrite resolve_growth_firstn in H by lia.
  apply (f_equal (fun r => match r with
                           | Ok p => length (fst p)
                           | Raise _ => O
                           end)) in H.
  cbv beta iota in H. cbn [fst] in H.
  destruct (g =? 0); [|destruct (0 <? g)]; cbn [fst] in H;
    try rewrite length_firstn in H; lia.
Qed.

Lemma set_first_length {A : Type} (l l' : list A) (v : A) :
  set_first l v = Ok l' -> length l' = length l.
Proof.
  destruct l; [discriminate|]. cbn [set_first]. intros H.
  injection H as <-. reflexivity.
Qed.

(** What the shrink loop of [take_damage] leaves: a body of two cells
    or more; without setback the same [prev], with setback the same
    body. *)
Lemma shrink_loop_lengths (n : nat) (sb : bool) :
  forall (bd pv bd' pv' : list vec),
    shrink_loop n sb bd pv = Ok (bd', pv') ->
    (2 <= length bd)%nat ->
    (2 <= length bd')%nat /\
    (sb = false -> pv' = pv) /\ (sb = true -> bd' = bd).
Proof.
  induction n as [|n IH]; intros bd pv bd' pv' H Hlen;
    cbn [shrink_loop] in H.
  - injection H as <- <-.
    split; [exact Hlen | split; intros _; reflexivity].
  - destruct (Nat.eqb_spec (length bd) 2) as [E|E].
    + injection H as <- <-.
      split; [exact Hlen | split; intros _; reflexivity].
    + destruct sb.
      * bind_inv H. destruct (IH _ _ _ _ H Hlen) as (H1 & _ & H3).
        split; [exact H1|]. split; [discriminate | exact H3].
      * bind_inv H. rewrite pop_firstn in E0
          by (intros ->; simpl in Hlen; lia).
        injection E0 as <-.
        destruct (IH _ _ _ _ H) as (H1 & H2 & _);
          [rewrite length_firstn; lia|].
        split; [exact H1|]. split; [exact H2 | discriminate].
Qed.

Section Invariants.

Context {A : Arith}.

Variable cfg : Settings.
Variable game : Game.
Variable normalize : vec -> vec.

Lemma invincible_tick_rest (s : Snake) (lt el eb dt : num) :
  let s' := invincible_tick cfg s lt el eb dt in
  _hitpoints s' = _hitpoints s /\ isalive s' = isalive s /\
  killed_log s' = killed_log s /\ prev_heading s' = prev_heading s.
Proof.
  unfold invincible_tick, blink, change_state, leave_invincible.
  destruct (fleb (INVINCIBILITY_BLINK_RATE cfg) (fadd eb dt));
    destruct (fleb lt (fadd el dt)); cbn; repeat split; reflexivity.
Qed.

(** X12. A frame moves the creature and runs its state's timers, and
    nothing else: whenever [update] returns, the hitpoints, the speed,
    the speed bonus, the heading, [ismoving] and [isalive] are as
    before, and the handler has not been called. *)
Theorem update_leaves_the_rest (s s' : Snake) (dt : num) :
  update cfg game s dt = Ok s' ->
  _hitpoints s' = _hitpoints s /\
  _speed s' = _speed s /\ _speed_bonus s' = _speed_bonus s /\
  heading s' = heading s /\ prev_heading s' = prev_heading s /\
  ismoving s' = ismoving s /\ isalive s' = isalive s /\
  killed_log s' = killed_log s.
Proof.
  unfold update, state_update.
  destruct (negb (isalive s)); intros H.
  - injection H as <-. repeat split; reflexivity.
  - set (s1 := if ismoving s
               then with_elapsed_t s (elapsed_t s + dt)%num else s) in *.
    assert (F1 : _hitpoints s1 = _hitpoints s /\ _speed s1 = _speed s /\
                 _speed_bonus s1 = _speed_bonus s /\
                 heading s1 = heading s /\
                 prev_heading s1 = prev_heading s /\
                 ismoving s1 = ismoving s /\ isalive s1 = isalive s /\
                 killed_log s1 = killed_log s)
      by (unfold s1; destruct (ismoving s) eqn:Em;
          repeat split; try reflexivity; exact Em).
    destruct F1 as (A1 & A2 & A3 & A4 & A5 & A6 & A7 & A8).
    destruct (curr_state s1) as [|lt el eb].
    + apply move_frame in H.
      destruct H as (B4 & B1 & B2 & B3 & B7 & _ & _ & B6 & _ & B5 & B8).
      rewrite B1, B2, B3, B4, B5, B6, B7, B8.
      repeat split; assumption.
    + apply move_frame in H.
      destruct H as (B4 & B1 & B2 & B3 & B7 & _ & _ & B6 & _ & B5 & B8).
      destruct (invincible_tick_motion cfg s1 lt el eb dt)
        as (_ & T4 & T2 & T3 & _ & _ & T6 & _).
      destruct (invincible_tick_rest s1 lt el eb dt)
        as (T1 & T7 & T8 & T5).
      rewrite B1, B2, B3, B4, B5, B6, B7, B8.
      rewrite T1, T2, T3, T4, T5, T6, T7, T8.
      repeat split; assumption.
Qed.

Lemma move_two_cells (s s' : Snake) :
  move game s = Ok s' -> two_cells s -> two_cells s'.
Proof.
  unfold move, two_cells. destruct (ismoving s); cbn [negb];
    intros H [Hb Hp].
  - bind_inv H. rename x into b0. bind_inv H. rename x into bd.
    bind_inv H. apply set_first_length in E0.
    destruct (fleb _ _).
    + unfold step in H. bind_inv H. bind_inv H. bind_inv H. bind_inv H.
      injection H as <-.
      cbn [body prev grow with_grow with_body with_elapsed_t with_prev]
        in *.
      destruct x3 as [bd' g']. cbn [fst].
      split; [|lia].
      apply (resolve_growth_two _ _ _ _ E5). cbn [length]. lia.
    + injection H as <-. cbn [body prev with_body]. split; lia.
  - injection H as <-. split; assumption.
Qed.

Lemma update_two_cells (s s' : Snake) (dt : num) :
  update cfg game s dt = Ok s' -> two_cells s -> two_cells s'.
Proof.
  unfold update, state_update.
  destruct (negb (isalive s)); intros H Hwf.
  - injection H as <-. exact Hwf.
  - set (s1 := if ismoving s
               then with_elapsed_t s (elapsed_t s + dt)%num else s) in *.
    assert (F1 : two_cells s1)
      by (unfold s1; destruct (ismoving s); exact Hwf).
    destruct (curr_state s1) as [|lt el eb].
    + exact (move_two_cells _ _ H F1).
    + apply (move_two_cells _ _ H).
      destruct (invincible_tick_motion cfg s1 lt el eb dt)
        as (Tb & _ & _ & _ & _ & _ & _ & Tp).
      unfold two_cells. rewrite Tb, Tp. exact F1.
Qed.

Lemma enter_invincible_cells (s : Snake) (lt : num) :
  body (enter_invincible s lt) = body s /\
  prev (enter_invincible s lt) = prev s.
Proof.
  unfold enter_invincible, change_state, leave_invincible.
  cbn [curr_state with_isinvincible].
  destruct (curr_state s); split; reflexivity.
Qed.

Lemma death_check_cells (s : Snake) (by_ : Z) :
  body (death_check s by_) = body s /\ prev (death_check s by_) = prev s.
Proof.
  unfold death_check. destruct (_hitpoints s <=? 0); split; reflexivity.
Qed.

Lemma take_damage_two_cells (s s' : Snake) (dmg by_ : Z) (sb inv : bool)
      (lt : num) (sh : Z) (sl : num) :
  take_damage cfg normalize s dmg by_ sb inv lt sh sl = Ok s' ->
  two_cells s -> two_cells s'.
Proof.
  intros H [Hb Hp]. unfold take_damage in H.
  bind_inv H. rename x into s1, E into H1.
  bind_inv H. rename x into s2, E into H2.
  injection H as <-.
  assert (F1 : (2 <= length (body s1))%nat /\
               (sb = false -> (2 <= length (prev s1))%nat)).
  { destruct (negb (isinvincible s)).
    - unfold apply_damage in H1. bind_inv H1. injection H1 as <-.
      destruct x as [bd' pv'].
      destruct (set_hitpoints_frame cfg s (_hitpoints s - dmg))
        as (Hb' & Hp' & _).
      rewrite Hb', Hp' in E.
      destruct (shrink_loop_lengths _ _ _ _ _ _ E Hb) as (L1 & L2 & _).
      unfold gain_speed. name_set_speed.
      cbn [body prev fst snd with_speed with_prev with_body].
      split; [exact L1|]. intros Hsb. rewrite (L2 Hsb). exact Hp.
    - injection H1 as <-. split; [exact Hb | intros _; exact Hp]. }
  assert (F2 : two_cells s2).
  { destruct sb.
    - destruct (set_back_result normalize _ _ H2) as (L & B & P).
      unfold two_cells. rewrite B, P. split; exact L.
    - injection H2 as <-. destruct F1 as [L1 L2].
      split; [exact L1 | exact (L2 eq_refl)]. }
  unfold two_cells.
  destruct (death_check_cells
              (if inv && negb (isinvincible s2)
               then enter_invincible s2 lt else s2) by_) as [D1 D2].
  rewrite D1, D2.
  destruct (inv && negb (isinvincible s2)); [|exact F2].
  destruct (enter_invincible_cells s2 lt) as [G1 G2].
  rewrite G1, G2. exact F2.
Qed.

Lemma respawn_body_prev (s : Snake) (pos : vec) :
  body (respawn cfg s pos) = [pos; (fst pos + 1, snd pos)] /\
  prev (respawn cfg s pos) = prev s.
Proof.
  unfold respawn. cbv zeta. rewrite set_hitpoints_only.
  unfold enter_invincible, change_state, leave_invincible.
  cbn [curr_state with_isinvincible with_hitpoints with_isalive
       with_ismoving with_prev_heading with_heading with_speed with_body].
  destruct (curr_state s); split; reflexivity.
Qed.

Lemma apply_op_two_cells (o : op) (s s' : Snake) :
  apply_op cfg game normalize o s = Ok s' -> two_cells s -> two_cells s'.
Proof.
  intros H Hwf. destruct o; cbn [apply_op] in H;
    try (injection H as <-).
  - destruct (set_speed_only cfg s value) as [v' ->]. exact Hwf.
  - exact Hwf.
  - unfold gain_speed. name_set_speed. exact Hwf.
  - rewrite set_hitpoints_only. exact Hwf.
  - unfold gain_hitpoints. rewrite set_hitpoints_only.
    destruct (MAX_HITPOINTS cfg <? _); [rewrite set_hitpoints_only|];
      exact Hwf.
  - exact Hwf.
  - exact (take_damage_two_cells _ _ _ _ _ _ _ _ _ H Hwf).
  - destruct (respawn_body_prev s pos) as [B P]. unfold two_cells.
    rewrite B, P. split; [simpl; lia | exact (proj2 Hwf)].
  - exact (update_two_cells _ _ _ H Hwf).
  - exact Hwf.
  - exact Hwf.
Qed.

End Invariants.

Section ReachableInvariants.

Context {A : Arith}.

Variable cfg : Settings.
Variable game : Game.
Variable normalize : vec -> vec.

Lemma init_two_cells (pos : vec) : two_cells (init cfg pos).
Proof. unfold two_cells. cbn [body prev init length]. lia. Qed.

Lemma run_two_cells (ops : list op) :
  forall s s',
    run cfg game normalize ops s = Ok s' -> two_cells s -> two_cells s'.
Proof.
  induction ops as [|o ops IH]; intros s s' H Hwf; cbn [run] in H.
  - injection H as <-. exact Hwf.
  - bind_inv H. apply (IH x s' H).
    exact (apply_op_two_cells cfg game normalize o s x E Hwf).
Qed.

(** X13. Every reachable creature has a body of two cells or more, and
    a [prev] snapshot of two cells or more: no sequence of calls that
    return, whatever their arguments, brings either below two. *)
Theorem reachable_two_cells (s : Snake) :
  reachable cfg game normalize s ->
  (2 <= length (body s))%nat /\ (2 <= length (prev s))%nat.
Proof.
  intros (pos & ops & Hrun).
  exact (run_two_cells ops _ _ Hrun (init_two_cells pos)).
Qed.

Hypothesis max_nonneg : 0 <= MAX_HITPOINTS cfg.

Lemma update_hitpoints (s s' : Snake) (dt : num) :
  update cfg game s dt = Ok s' -> _hitpoints s' = _hitpoints s.
Proof.
  unfold update, state_update.
  destruct (negb (isalive s)); intros H.
  - injection H as <-. reflexivity.
  - set (s1 := if ismoving s
               then with_elapsed_t s (elapsed_t s + dt)%num else s) in *.
    assert (F1 : _hitpoints s1 = _hitpoints s)
      by (unfold s1; destruct (ismoving s); reflexivity).
    destruct (curr_state s1) as [|lt el eb];
      apply move_frame in H; destruct H as (_ & B1 & _); rewrite B1.
    + exact F1.
    + destruct (invincible_tick_rest cfg s1 lt el eb dt) as (T1 & _).
      rewrite T1. exact F1.
Qed.

Lemma take_damage_hitpoints_ok (s s' : Snake) (dmg by_ : Z) (sb inv : bool)
      (lt : num) (sh : Z) (sl : num) :
  take_damage cfg normalize s dmg by_ sb inv lt sh sl = Ok s' ->
  hitpoints_ok cfg s -> hitpoints_ok cfg s'.
Proof.
  intros H Hok. unfold take_damage in H.
  bind_inv H. rename x into s1, E into H1.
  bind_inv H. rename x into s2, E into H2.
  injection H as <-.
  assert (F1 : hitpoints_ok cfg s1).
  { destruct (negb (isinvincible s)).
    - unfold apply_damage in H1. bind_inv H1. injection H1 as <-.
      unfold gain_speed. name_set_speed.
      unfold hitpoints_ok.
      cbn [_hitpoints with_speed with_prev with_body].
      apply set_hitpoints_bounds. exact max_nonneg.
    - injection H1 as <-. exact Hok. }
  assert (F2 : hitpoints_ok cfg s2).
  { destruct sb.
    - destruct (set_back_frame normalize _ _ H2) as (Hh & _).
      unfold hitpoints_ok. rewrite Hh. exact F1.
    - injection H2 as <-. exact F1. }
  unfold hitpoints_ok.
  destruct (death_check_cases
              (if inv && negb (isinvincible s2)
               then enter_invincible s2 lt else s2) by_) as (D & _).
  rewrite D.
  destruct (inv && negb (isinvincible s2)); [|exact F2].
  destruct (enter_invincible_frame s2 lt) as (G & _).
  rewrite G. exact F2.
Qed.

Lemma apply_op_hitpoints_ok (o : op) (s s' : Snake) :
  apply_op cfg game normalize o s = Ok s' ->
  hitpoints_ok cfg s -> hitpoints_ok cfg s'.
Proof.
  intros H Hok. destruct o; cbn [apply_op] in H;
    try (injection H as <-).
  - destruct (set_speed_only cfg s value) as [v' ->]. exact Hok.
  - exact Hok.
  - unfold gain_speed. name_set_speed. exact Hok.
  - apply set_hitpoints_bounds. exact max_nonneg.
  - unfold gain_hitpoints.
    destruct (MAX_HITPOINTS cfg <? _);
      apply set_hitpoints_bounds; exact max_nonneg.
  - exact Hok.
  - exact (take_damage_hitpoints_ok _ _ _ _ _ _ _ _ _ H Hok).
  - unfold hitpoints_ok, respawn. cbv zeta.
    cbn [_hitpoints with_elapsed_t].
    match goal with
    | |- context [enter_invincible ?X ?lt] =>
        destruct (enter_invincible_frame X lt) as (G & _); rewrite G
    end.
    apply set_hitpoints_bounds. exact max_nonneg.
  - unfold hitpoints_ok. rewrite (update_hitpoints _ _ _ H). exact Hok.
  - exact Hok.
  - exact Hok.
Qed.

Lemma run_hitpoints_ok (ops : list op) :
  forall s s',
    run cfg game normalize ops s = Ok s' ->
    hitpoints_ok cfg s -> hitpoints_ok cfg s'.
Proof.
  induction ops as [|o ops IH]; intros s s' H Hok; cbn [run] in H.
  - injection H as <-. exact Hok.
  - bind_inv H. apply (IH x s' H).
    exact (apply_op_hitpoints_ok o s x E Hok).
Qed.

(** X14. With [MAX_HITPOINTS] not negative, the hitpoints of every
    reachable creature lie between 0 and [MAX_HITPOINTS]: damage,
    healing and direct assignments all go through the clamping
    setter. *)
Theorem reachable_hitpoints_bounded (s : Snake) :
  reachable cfg game normalize s ->
  0 <= _hitpoints s <= MAX_HITPOINTS cfg.
Proof.
  intros (pos & ops & Hrun).
  apply (run_hitpoints_ok ops _ _ Hrun).
  unfold hitpoints_ok. cbn [_hitpoints init]. lia.
Qed.

End ReachableInvariants.

(** ** More on rendering and the resolver *)

Lemma py_index_error {A : Type} (l : list A) (i : Z) (e : exn) :
  py_index l i = Raise e -> e = IndexError.
Proof.
  unfold py_index.
  destruct ((_ <? 0) || (_ <=? _)); [intros H; injection H as <-; reflexivity|].
  destruct (nth_error _ _); [discriminate|].
  intros H; injection H as <-; reflexivity.
Qed.

Lemma dirflag_error (v : vec) (e : exn) :
  dirflag v = Raise e -> e = KeyError.
Proof.
  unfold dirflag. cbn [VEC_TO_DIRFLAG dict_get].
  repeat match goal with
         | |- context [if ?b then _ else _] => destruct b; [discriminate|]
         end.
  intros H; injection H as <-; reflexivity.
Qed.

(** The classification does not care which neighbour comes first. *)
Lemma classify_sym (a b c ba bc : vec) :
  classify a b c ba bc = classify c b a bc ba.
Proof.
  unfold classify.
  rewrite (Z.eqb_sym (fst a) (fst b)), (Z.eqb_sym (fst b) (fst c)).
  rewrite (Z.eqb_sym (snd a) (snd b)), (Z.eqb_sym (snd b) (snd c)).
  rewrite (andb_comm (fst b =? fst a)), (andb_comm (snd b =? snd a)).
  destruct ((fst c =? fst b) && (fst b =? fst a)); [reflexivity|].
  destruct ((snd c =? snd b) && (snd b =? snd a)); [reflexivity|].
  destruct (dirflag ba) as [fa|ea] eqn:Ea;
    destruct (dirflag bc) as [fc|ec] eqn:Ec; cbn [bind].
  - rewrite Z.lor_comm. reflexivity.
  - reflexivity.
  - reflexivity.
  - apply dirflag_error in Ea, Ec. subst. reflexivity.
Qed.

Lemma py_index_rev {A : Type} (l : list A) (i : Z) :
  0 <= i < Z.of_nat (length l) ->
  py_index (rev l) i = py_index l (Z.of_nat (length l) - 1 - i).
Proof.
  intros Hi.
  destruct (py_index_in_range (rev l) i) as (x & Hx & Nx);
    [rewrite length_rev; lia|].
  destruct (py_index_in_range l (Z.of_nat (length l) - 1 - i))
    as (y & Hy & Ny); [lia|].
  rewrite Hx, Hy. f_equal.
  rewrite nth_error_rev in Nx.
  destruct (Nat.ltb_spec (Z.to_nat i) (length l)); [|lia].
  replace (length l - S (Z.to_nat i))%nat
    with (Z.to_nat (Z.of_nat (length l) - 1 - i)) in Nx by lia.
  congruence.
Qed.

Section ResolverMore.

Variable normalize : vec -> vec.

(** X15. The resolver takes an index strictly between minus the length
    and the last index; for any other index one of its three lookups
    is out of range and it raises [IndexError].  (A negative index in
    range is read from the end, as Python lists do.) *)
Theorem get_arrangement_index_error (snake : list vec) (index : Z)
        (tm : Tilemap) :
  index <= - Z.of_nat (length snake) \/
  Z.of_nat (length snake) - 1 <= index ->
  get_arrangement normalize snake index tm = Raise IndexError.
Proof.
  intros Hi. unfold get_arrangement.
  destruct (py_index snake (index - 1)) as [a|e] eqn:Ea;
    [|apply py_index_error in Ea; subst; reflexivity].
  destruct (py_index snake index) as [b|e] eqn:Eb;
    [|apply py_index_error in Eb; subst; reflexivity].
  destruct (py_index snake (index + 1)) as [c|e] eqn:Ec;
    [|apply py_index_error in Ec; subst; reflexivity].
  apply py_index_Ok_range in Ea, Ec. lia.
Qed.

(** X16. Between neighbours that are at most one step away, the
    arrangement of a segment does not depend on the direction in which
    the body is listed: the reversed body gives the same flag, or the
    same error, at the mirrored index. *)
Theorem get_arrangement_reversed (snake : list vec) (index : Z)
        (tm : Tilemap) (a b c : vec) :
  0 < index < Z.of_nat (length snake) - 1 ->
  py_index snake (index - 1) = Ok a ->
  py_index snake index = Ok b ->
  py_index snake (index + 1) = Ok c ->
  m_distance a b <= 1 ->
  m_distance c b <= 1 ->
  get_arrangement normalize (rev snake)
                  (Z.of_nat (length snake) - 1 - index) tm
  = get_arrangement normalize snake index tm.
Proof.
  intros Hi Ha Hb Hc Dab Dcb. unfold get_arrangement.
  set (n := Z.of_nat (length snake)) in *.
  rewrite (py_index_rev snake (n - 1 - index - 1)) by (fold n; lia).
  rewrite (py_index_rev snake (n - 1 - index)) by (fold n; lia).
  rewrite (py_index_rev snake (n - 1 - index + 1)) by (fold n; lia).
  fold n.
  replace (n - 1 - (n - 1 - index - 1)) with (index + 1) by lia.
  replace (n - 1 - (n - 1 - index)) with index by lia.
  replace (n - 1 - (n - 1 - index + 1)) with (index - 1) by lia.
  rewrite Ha, Hb, Hc. cbn [bind].
  rewrite (resolve_a_near normalize tm c b Dcb).
  rewrite (resolve_c_near normalize tm c b a Dab).
  rewrite (resolve_a_near normalize tm a b Dab).
  rewrite (resolve_c_near normalize tm a b c Dcb).
  apply classify_sym.
Qed.

Lemma resolve_a_portal (tm : Tilemap) (a b p : vec) :
  1 < m_distance a b ->
  next_portal tm b = Some p ->
  resolve_a normalize tm a b = (p, sub_vecs p b).
Proof.
  intros H Hp. unfold resolve_a.
  destruct (Z.ltb_spec 1 (m_distance a b)); [|lia].
  rewrite Hp. reflexivity.
Qed.

(** X17. When both neighbours of a segment are more than one step away
    and a portal lies one step from the segment, that portal stands in
    for both of them, and the segment is classified as straight:
    vertical if the portal is above or below it, horizontal
    otherwise.  No flag lookup takes place, so the resolver returns. *)
Theorem two_gaps_by_a_portal_are_straight (snake : list vec) (index : Z)
        (tm : Tilemap) (a b c p : vec) :
  py_index snake (index - 1) = Ok a ->
  py_index snake index = Ok b ->
  py_index snake (index + 1) = Ok c ->
  1 < m_distance a b ->
  1 < m_distance c b ->
  next_portal tm b = Some p ->
  get_arrangement normalize snake index tm =
  Ok (if fst p =? fst b then Z.lor VERTICAL STRAIGHT else STRAIGHT).
Proof.
  intros Ha Hb Hc Dab Dcb Hp. unfold get_arrangement.
  rewrite Ha, Hb, Hc. cbn [bind].
  rewrite (resolve_a_portal tm a b p Dab Hp).
  rewrite (resolve_c_portal normalize tm a b c p Dcb Hp).
  unfold next_portal in Hp. apply find_some in Hp.
  destruct Hp as [_ Hd]. apply Z.eqb_eq in Hd.
  unfold classify.
  rewrite (Z.eqb_sym (fst b) (fst p)), (Z.eqb_sym (snd b) (snd p)).
  destruct (Z.eqb_spec (fst p) (fst b)) as [Ex|Ex]; cbn [andb];
    [reflexivity|].
  destruct (Z.eqb_spec (snd p) (snd b)) as [Ey|Ey]; cbn [andb];
    [reflexivity|].
  unfold m_distance in Hd. lia.
Qed.

End ResolverMore.

Section DrawMore.

Context {A : Arith}.

Variable game : Game.
Variable normalize : vec -> vec.

Lemma draw_parts_cells (s : Snake) (body_len : Z) (parts : list vec) :
  forall index calls,
    draw_parts game normalize s body_len index parts = Ok calls ->
    map fst calls = parts.
Proof.
  induction parts as [|part rest IH]; intros index calls H;
    cbn [draw_parts] in H.
  - injection H as <-. reflexivity.
  - bind_inv H. bind_inv H. injection H as <-.
    cbn [map fst]. rewrite (IH _ _ E0). reflexivity.
Qed.

(** X18. Whenever [draw] returns, it has called the drawing backend
    once for every body cell, head first, in the order of the body, if
    the creature is alive and visible, and not at all if it is dead or
    hidden by the blink. *)
Theorem draw_calls_follow_body (s : Snake) (calls : list (vec * Rect)) :
  draw game normalize s = Ok calls ->
  map fst calls = (if isalive s && isvisible s then body s else []).
Proof.
  unfold draw. destruct (isalive s); cbn [negb andb].
  - destruct (isvisible s).
    + intros H. exact (draw_parts_cells _ _ _ _ _ H).
    + intros H. injection H as <-. reflexivity.
  - intros H. injection H as <-. reflexivity.
Qed.

End DrawMore.

(** ** Item access *)

Lemma nth_error_replace {A : Type} (l : list A) (j : nat) (v : A) :
  (j < length l)%nat ->
  nth_error (firstn j l ++ v :: skipn (S j) l) j = Some v /\
  length (firstn j l ++ v :: skipn (S j) l) = length l /\
  forall k, k <> j ->
            nth_error (firstn j l ++ v :: skipn (S j) l) k = nth_error l k.
Proof.
  intros Hj.
  assert (Hf : length (firstn j l) = j) by (rewrite length_firstn; lia).
  split; [|split].
  - rewrite nth_error_app2 by lia. rewrite Hf, Nat.sub_diag. reflexivity.
  - rewrite length_app. cbn [length]. rewrite Hf, length_skipn. lia.
  - intros k Hk. destruct (Nat.lt_ge_cases k j) as [Hlt|Hge].
    + rewrite nth_error_app1 by lia. rewrite nth_error_firstn.
      destruct (Nat.ltb_spec k j); [reflexivity | lia].
    + rewrite nth_error_app2 by lia. rewrite Hf.
      replace (k - j)%nat with (S (k - j - 1)) by lia.
      cbn [nth_error]. rewrite nth_error_skipn. f_equal. lia.
Qed.

(** An index that is in range, counted from the start. *)
Lemma py_index_nth {A : Type} (l : list A) (i : Z) :
  - Z.of_nat (length l) <= i < Z.of_nat (length l) ->
  exists x,
    py_index l i = Ok x /\
    nth_error l (Z.to_nat (if i <? 0 then i + Z.of_nat (length l) else i))
    = Some x.
Proof.
  intros Hi. unfold py_index.
  set (n := Z.of_nat (length l)) in *.
  set (j := if i <? 0 then i + n else i).
  assert (Hj : 0 <= j < n) by (unfold j; destruct (Z.ltb_spec i 0); lia).
  destruct (Z.ltb_spec j 0); [lia|].
  destruct (Z.leb_spec n j); [lia|]. cbn [orb].
  destruct (nth_error l (Z.to_nat j)) as [x|] eqn:E.
  - exists x. split; reflexivity.
  - apply nth_error_None in E. lia.
Qed.

Lemma py_index_out_of_range {A : Type} (l : list A) (i : Z) :
  i < - Z.of_nat (length l) \/ Z.of_nat (length l) <= i ->
  py_index l i = Raise IndexError.
Proof.
  intros Hi. destruct (py_index l i) as [x|e] eqn:E.
  - apply py_index_Ok_range in E. lia.
  - apply py_index_error in E. subst. reflexivity.
Qed.

Section Items.

Context {A : Arith}.

(** X19. Item assignment followed by item access: when
    [snake[i] = item] returns, [snake[i]] is [item], the body has the
    length it had, every other cell is what it was, and nothing but
    the body has changed.  The index may be negative; two indices name
    the same cell when they differ by the length. *)
Theorem setitem_getitem (s s' : Snake) (i : Z) (item : vec) :
  __setitem__ s i item = Ok s' ->
  __getitem__ s' i = Ok item /\
  length (body s') = length (body s) /\
  (forall j, j <> i -> j <> i + Z.of_nat (length (body s)) ->
             j <> i - Z.of_nat (length (body s)) ->
             __getitem__ s' j = __getitem__ s j) /\
  s' = with_body s (body s').
Proof.
  unfold __setitem__, __getitem__. intros H. bind_inv H.
  injection H as <-. cbn [body with_body]. rename x into bd0.
  unfold py_set_index in E.
  set (n := Z.of_nat (length (body s))) in *.
  set (ji := if i <? 0 then i + n else i) in *.
  destruct (Z.ltb_spec ji 0) as [|Hlo]; [discriminate|].
  destruct (Z.leb_spec n ji) as [|Hhi]; [discriminate|].
  cbn [orb] in E.
  assert (Ebd : bd0 = firstn (Z.to_nat ji) (body s)
                      ++ item :: skipn (S (Z.to_nat ji)) (body s))
    by (injection E as E'; symmetry; exact E').
  clear E. subst bd0.
  destruct (nth_error_replace (body s) (Z.to_nat ji) item)
    as (Hget & Hlen & Hother); [lia|].
  set (bd := firstn (Z.to_nat ji) (body s)
             ++ item :: skipn (S (Z.to_nat ji)) (body s)) in *.
  assert (Hn : Z.of_nat (length bd) = n) by (rewrite Hlen; reflexivity).
  assert (Hi : - n <= i < n)
    by (unfold ji in *; destruct (Z.ltb_spec i 0); lia).
  split; [|split; [exact Hlen|split; [|reflexivity]]].
  - destruct (py_index_nth bd i) as (x & Hx & Nx); [lia|].
    rewrite Hx. f_equal. rewrite Hn in Nx. fold ji in Nx. congruence.
  - intros j Hj1 Hj2 Hj3.
    destruct (Z_lt_ge_dec j (- n)) as [Hout|Hin];
      [|destruct (Z_le_gt_dec n j) as [Hout|Hin2]].
    + rewrite !py_index_out_of_range by lia. reflexivity.
    + rewrite !py_index_out_of_range by lia. reflexivity.
    + destruct (py_index_nth bd j) as (x & Hx & Nx); [lia|].
      destruct (py_index_nth (body s) j) as (y & Hy & Ny); [fold n; lia|].
      rewrite Hx, Hy. f_equal. rewrite Hn in Nx. fold n in Ny.
      rewrite Hother in Nx; [congruence|].
      unfold ji. destruct (Z.ltb_spec i 0), (Z.ltb_spec j 0); lia.
Qed.

(** X20. Item access and item assignment accept the indices from minus
    the length up to, but not including, the length, and raise
    [IndexError] for every other index; neither ever extends the
    body. *)
Theorem item_index_out_of_range (s : Snake) (i : Z) (item : vec) :
  i < - Z.of_nat (length (body s)) \/ Z.of_nat (length (body s)) <= i ->
  __getitem__ s i = Raise IndexError /\
  __setitem__ s i item = Raise IndexError.
Proof.
  intros Hi. unfold __getitem__, __setitem__, py_set_index. split.
  - apply py_index_out_of_range. exact Hi.
  - set (n := Z.of_nat (length (body s))) in *.
    destruct (Z.ltb_spec i 0).
    + destruct (Z.ltb_spec (i + n) 0); [reflexivity|].
      destruct (Z.leb_spec n (i + n)); [reflexivity | lia].
    + destruct (Z.ltb_spec i 0); [lia|].
      destruct (Z.leb_spec n i); [reflexivity | lia].
Qed.

End Items.

(** ** The state machine base class *)

Lemma last_cons {A : Type} (l : list A) :
  forall x d, last (x :: l) d = last l x.
Proof.
  induction l as [|y l IH]; intros x d; [reflexivity|].
  change (last (x :: y :: l) d) with (last (y :: l) d).
  rewrite (IH y d), (IH y x). reflexivity.
Qed.

Lemma fsm_run_from {St : Type} (sts : list St) :
  forall (m : Fsm.machine St) (cur : St),
    Fsm.curr_state m = Some cur ->
    Fsm.run m sts =
    Some (Fsm.mkMachine (Some (last sts cur))
                        (Fsm.calls m ++ Fsm.transitions cur sts)).
Proof.
  induction sts as [|st rest IH]; intros m cur Hc.
  - cbn [Fsm.run Fsm.transitions last]. rewrite app_nil_r, <- Hc.
    destruct m; reflexivity.
  - cbn [Fsm.run Fsm.change_state]. rewrite Hc.
    rewrite (IH (Fsm.mkMachine (Some st)
                   ((Fsm.calls m ++ [Fsm.Leave cur])
                    ++ [Fsm.Enter st (Some cur)])) st eq_refl).
    cbn [Fsm.calls Fsm.transitions].
    rewrite <- !app_assoc. cbn [app].
    rewrite (last_cons rest st cur). reflexivity.
Qed.

(** X21. A machine started in a state and sent through any number of
    states enters the first state with no old state and then, for every
    change, leaves the state it is in before it enters the next one,
    which is told the state just left; it ends in the last state.  A
    machine started without a state and changed to a state makes the
    same calls as one started in that state. *)
Theorem fsm_leave_before_enter {St : Type} (s0 : St) (sts : list St) :
  Fsm.run (Fsm.init (Some s0)) sts =
  Some (Fsm.mkMachine (Some (last sts s0))
                      (Fsm.Enter s0 None :: Fsm.transitions s0 sts)) /\
  Fsm.run (Fsm.init None) (s0 :: sts) = Fsm.run (Fsm.init (Some s0)) sts.
Proof.
  split.
  - rewrite (fsm_run_from sts (Fsm.init (Some s0)) s0 eq_refl).
    reflexivity.
  - reflexivity.
Qed.

(** ** Instances of the further properties *)

Lemma set_back_faces_forward_witness :
  exists s',
    set_back sign_normalize (six_cells 0 0) = Ok s' /\
    body s' = prev (six_cells 0 0) /\
    heading s' = Some LEFT.
Proof.
  destruct (set_back_faces_forward sign_normalize (six_cells 0 0)
              (3, 4) (4, 4) [(5, 4); (6, 4); (7, 4); (8, 4)])
    as (s' & Hs & Hb & _ & _ & _ & Hadj); [reflexivity|].
  exists s'. split; [exact Hs|]. split; [exact Hb|].
  destruct Hadj as [_ Hh]; [reflexivity | exact Hh].
Defined.

Lemma take_damage_shrinks_tail_witness :
  exists s',
    take_damage settings0 sign_normalize (six_cells 0 0) 10 7
                false false 0%float 3 0%float = Ok s' /\
    body s' = [(3, 4); (4, 4); (5, 4)] /\
    _hitpoints s' = 90.
Proof.
  destruct (take_damage_shrinks_tail settings0 sign_normalize
              (six_cells 0 0) 10 7 false 0%float 3 0%float)
    as (s' & Hs & Hb & _ & _ & _ & Hh); [reflexivity | simpl; lia |].
  exists s'. split; [exact Hs|]. split; [exact Hb | exact Hh].
Defined.

Lemma take_damage_kills_iff_witness :
  exists s',
    take_damage settings0 sign_normalize (six_cells 0 0) 100 7
                false false 0%float 0 0%float = Ok s' /\
    _hitpoints s' = 0 /\ isalive s' = false /\ killed_log s' = [7].
Proof.
  destruct (take_damage_kills_iff settings0 sign_normalize
              (six_cells 0 0) 100 7 false 0%float 0 0%float)
    as (s' & Hs & Hdead & _);
    [reflexivity | simpl; lia | simpl; lia |].
  exists s'. split; [exact Hs|]. apply Hdead. simpl. lia.
Defined.

Lemma invincible_is_still_set_back_witness :
  exists s',
    take_damage settings0 sign_normalize
                (with_body snake0 [(3, 4); (4, 4); (5, 4)]) 10 7
                true false 0%float 0 0%float = Ok s' /\
    body s' = [(4, 4); (5, 4)] /\
    _hitpoints s' = 100.
Proof.
  destruct (invincible_is_still_set_back settings0 sign_normalize
              (with_body snake0 [(3, 4); (4, 4); (5, 4)]) 10 7
              false 0%float 0 0%float (4, 4) (5, 4) [])
    as (s' & Hs & Hb & _ & Hh & _); [reflexivity | reflexivity |].
  exists s'. split; [exact Hs|]. split; [exact Hb | exact Hh].
Defined.

Lemma grant_after_leave_witness :
  exists s',
    take_damage settings0 sign_normalize (six_cells 0 0) 10 7
                false true 2%float 0 0%float = Ok s' /\
    curr_state s' = (SnakeInvincibleState (A := binary64) 2 0 0)%float /\
    isinvincible s' = true.
Proof.
  destruct (grant_after_leave settings0 sign_normalize (six_cells 0 0)
              10 7 2%float 0 0%float)
    as (s' & Hs & Hc & Hflag); [reflexivity | simpl; lia |].
  exists s'. split; [exact Hs|]. split; [exact Hc|].
  exact (proj1 Hflag).
Defined.

Lemma setback_after_respawn_restores_old_prev_witness :
  exists s',
    take_damage settings0 sign_normalize
                (respawn settings0 (six_cells 0 0) (1, 1)) 10 7
                true false 0%float 0 0%float = Ok s' /\
    body s' = [(3, 4); (4, 4); (5, 4); (6, 4); (7, 4); (8, 4)].
Proof.
  apply (setback_after_respawn_restores_old_prev settings0 sign_normalize
           (six_cells 0 0) (1, 1) 10 7 false 0%float 0 0%float
           (3, 4) (4, 4) [(5, 4); (6, 4); (7, 4); (8, 4)]).
  reflexivity.
Defined.

Lemma steps_grow_witness :
  exists s',
    steps 3 (six_cells 2 0) = Ok s' /\
    length (body s') = 8%nat /\ grow s' = 0.
Proof.
  destruct (steps_grow 3 (six_cells 2 0) LEFT)
    as (s' & Hs & Hl & Hg).
  - discriminate.
  - reflexivity.
  - reflexivity.
  - simpl. lia.
  - exists s'. split; [exact Hs|]. split; [exact Hl | exact Hg].
Defined.

Lemma step_follows_head_witness :
  exists s',
    step (six_cells 0 0) = Ok s' /\
    nth_error (body s') 0 = Some (2, 4) /\
    nth_error (body s') 1 = Some (3, 4).
Proof.
  destruct (step_follows_head (six_cells 0 0) (3, 4)
              [(4, 4); (5, 4); (6, 4); (7, 4); (8, 4)] LEFT)
    as (s' & Hs & _ & _ & H0 & Hi).
  - reflexivity.
  - reflexivity.
  - reflexivity.
  - reflexivity.
  - exists s'. split; [exact Hs|]. split; [exact H0|].
    apply (Hi 0%nat). simpl. lia.
Defined.

Lemma setback_undoes_step_witness :
  exists s1 s2,
    step (six_cells 0 0) = Ok s1 /\
    take_damage settings0 sign_normalize s1 10 7 true false 0%float 0 0%float
    = Ok s2 /\
    body s2 = body (six_cells 0 0).
Proof.
  apply (setback_undoes_step settings0 sign_normalize (six_cells 0 0)
           10 7 false 0%float 0 0%float (3, 4) (4, 4)
           [(5, 4); (6, 4); (7, 4); (8, 4)] LEFT).
  - reflexivity.
  - reflexivity.
  - reflexivity.
  - lia.
Defined.

Lemma update_leaves_the_rest_witness :
  exists s',
    update settings0 game10 (six_cells 0 0) 0.3%float = Ok s' /\
    _hitpoints s' = 100 /\ heading s' = Some LEFT /\ killed_log s' = [].
Proof.
  destruct (update settings0 game10 (six_cells 0 0) 0.3%float)
    as [s'|e] eqn:H.
  - exists s'. split; [reflexivity|].
    destruct (update_leaves_the_rest settings0 game10 _ _ _ H)
      as (Hh & _ & _ & Hd & _ & _ & _ & Hk).
    rewrite Hh, Hd, Hk. repeat split.
  - vm_compute in H. discriminate H.
Defined.

Lemma reachable_two_cells_witness :
  exists s,
    run settings0 game10 sign_normalize grow_once snake0 = Ok s /\
    (2 <= length (body s))%nat /\ (2 <= length (prev s))%nat.
Proof.
  destruct (run settings0 game10 sign_normalize grow_once snake0)
    as [s|e] eqn:H.
  - exists s. split; [reflexivity|].
    apply (reachable_two_cells settings0 game10 sign_normalize).
    exists (4, 4), grow_once. exact H.
  - vm_compute in H. discriminate H.
Defined.

Lemma reachable_hitpoints_bounded_witness :
  exists s,
    run settings0 game10 sign_normalize
        [OpGainHitpoints 50; OpSetHitpoints (-3); OpGainHitpoints 7]
        snake0 = Ok s /\
    0 <= _hitpoints s <= 100.
Proof.
  destruct (run settings0 game10 sign_normalize
              [OpGainHitpoints 50; OpSetHitpoints (-3); OpGainHitpoints 7]
              snake0) as [s|e] eqn:H.
  - exists s. split; [reflexivity|].
    apply (reachable_hitpoints_bounded settings0 game10 sign_normalize).
    + simpl. lia.
    + exists (4, 4),
        [OpGainHitpoints 50; OpSetHitpoints (-3); OpGainHitpoints 7].
      exact H.
  - vm_compute in H. discriminate H.
Defined.

Lemma get_arrangement_index_error_witness :
  get_arrangement sign_normalize gap_body 2 arena10 = Raise IndexError.
Proof.
  apply get_arrangement_index_error. right. simpl. lia.
Defined.

Lemma get_arrangement_reversed_witness :
  get_arrangement sign_normalize (rev [(1, 0); (0, 0); (0, 1)])
                  (Z.of_nat (length [(1, 0); (0, 0); (0, 1)]) - 1 - 1)
                  arena10
  = get_arrangement sign_normalize [(1, 0); (0, 0); (0, 1)] 1 arena10.
Proof.
  apply (get_arrangement_reversed sign_normalize [(1, 0); (0, 0); (0, 1)]
           1 arena10 (1, 0) (0, 0) (0, 1)).
  - simpl. lia.
  - reflexivity.
  - reflexivity.
  - reflexivity.
  - vm_compute. discriminate.
  - vm_compute. discriminate.
Defined.

Lemma two_gaps_by_a_portal_are_straight_witness :
  get_arrangement sign_normalize portal_body 1 portal_arena
  = Ok (Z.lor VERTICAL STRAIGHT).
Proof.
  apply (two_gaps_by_a_portal_are_straight sign_normalize portal_body 1
           portal_arena (9, 9) (5, 5) (0, 0) (5, 4));
    reflexivity.
Defined.

Lemma draw_calls_follow_body_witness :
  exists calls,
    draw game10 sign_normalize
         (still_snake [(4, 4); (4, 5); (5, 5); (6, 5)] (Some UP)) = Ok calls /\
    map fst calls = [(4, 4); (4, 5); (5, 5); (6, 5)].
Proof.
  destruct (draw game10 sign_normalize
              (still_snake [(4, 4); (4, 5); (5, 5); (6, 5)] (Some UP)))
    as [calls|e] eqn:H.
  - exists calls. split; [reflexivity|].
    exact (draw_calls_follow_body game10 sign_normalize _ _ H).
  - vm_compute in H. discriminate H.
Defined.

Lemma setitem_getitem_witness :
  exists s',
    __setitem__ (six_cells 0 0) (-1) (9, 9) = Ok s' /\
    __getitem__ s' (-1) = Ok (9, 9) /\
    __getitem__ s' 5 = Ok (9, 9) /\
    __getitem__ s' 0 = Ok (3, 4).
Proof.
  destruct (__setitem__ (six_cells 0 0) (-1) (9, 9)) as [s'|e] eqn:H.
  - exists s'. split; [reflexivity|].
    destruct (setitem_getitem _ _ _ _ H) as (Hget & _ & Hother & _).
    split; [exact Hget|].
    vm_compute in H. injection H as <-. split; [reflexivity|].
    rewrite Hother by (simpl; lia). reflexivity.
  - vm_compute in H. discriminate H.
Defined.

Lemma item_index_out_of_range_witness :
  __getitem__ (six_cells 0 0) 6 = Raise IndexError /\
  __setitem__ (six_cells 0 0) (-7) (9, 9) = Raise IndexError.
Proof.
  split.
  - apply (item_index_out_of_range (six_cells 0 0) 6 (9, 9)).
    right. simpl. lia.
  - apply (item_index_out_of_range (six_cells 0 0) (-7) (9, 9)).
    left. simpl. lia.
Defined.

Lemma invincible_update_expiry_witness :
  exists s',
    update settings0 game10 snake0 6%float = Ok s' /\
    curr_state s' = SnakeNormalState /\
    isvisible s' = true /\ isinvincible s' = false.
Proof.
  apply (invincible_update_expiry settings0 game10 snake0
           5%float 0%float 0%float 6%float).
  - reflexivity.
  - reflexivity.
  - left. reflexivity.
  - reflexivity.
Defined.

(** ** A heading that is no direction *)

Section BadHeading.

Context {A : Arith}.

Variable game : Game.
Variable normalize : vec -> vec.

(** The loop with its calls kept agrees with the loop: it returns the
    same calls, and ends with the same exception. *)
Lemma draw_parts_trace_agrees (s : Snake) (body_len : Z)
      (parts : list vec) :
  forall index,
    match draw_parts game normalize s body_len index parts with
    | Ok calls =>
        draw_parts_trace game normalize s body_len index parts
        = (calls, None)
    | Raise e =>
        snd (draw_parts_trace game normalize s body_len index parts)
        = Some e
    end.
Proof.
  induction parts as [|part rest IH]; intros index;
    cbn [draw_parts draw_parts_trace]; [reflexivity|].
  destruct (part_area game normalize s body_len index) as [area|e];
    cbn [bind]; [|reflexivity].
  specialize (IH (index + 1)).
  destruct (draw_parts game normalize s body_len (index + 1) rest)
    as [calls|e]; cbn [bind].
  - rewrite IH. reflexivity.
  - cbn [snd]. exact IH.
Qed.

Lemma draw_trace_agrees (s : Snake) :
  match draw game normalize s with
  | Ok calls => draw_trace game normalize s = (calls, None)
  | Raise e => snd (draw_trace game normalize s) = Some e
  end.
Proof.
  unfold draw, draw_trace.
  destruct (negb (isalive s)); [reflexivity|].
  destruct (isvisible s); [|reflexivity].
  apply draw_parts_trace_agrees.
Qed.

(** X22. A heading that is neither unset, nor zero, nor one of the four
    directions makes [draw] raise [KeyError] at the head, before
    anything is drawn, for every creature that is alive, visible and
    has a body: the lookup of the head's region is the one that
    fails, and the backend has not been called when the exception
    leaves [draw]. *)
Theorem draw_bad_heading_raises (s : Snake) (h : vec) :
  isalive s = true ->
  isvisible s = true ->
  body s <> [] ->
  heading s = Some h ->
  vec_eqb h (0, 0) = false ->
  is_cardinal h = false ->
  draw game normalize s = Raise KeyError /\
  head_area s = Raise KeyError /\
  draw_trace game normalize s = ([], Some KeyError).
Proof.
  intros Ha Hv Hb Hh Hz Hc.
  assert (Hhead : head_area s = Raise KeyError).
  { unfold head_area. rewrite Hh, Hz. cbn [negb].
    rewrite (dirflag_not_cardinal h Hc). reflexivity. }
  unfold draw, draw_trace. rewrite Ha, Hv. cbn [negb].
  destruct (body s) as [|part rest]; [congruence|].
  cbn [draw_parts draw_parts_trace]. unfold part_area. cbn [Z.eqb].
  rewrite Hhead. repeat split; reflexivity.
Qed.

End BadHeading.

Lemma draw_bad_heading_raises_witness :
  draw game10 sign_normalize (still_snake [(4, 4); (5, 4)] (Some (1, 1)))
  = Raise KeyError /\
  draw_trace game10 sign_normalize
             (still_snake [(4, 4); (5, 4)] (Some (1, 1)))
  = ([], Some KeyError).
Proof.
  destruct (draw_bad_heading_raises game10 sign_normalize
              (still_snake [(4, 4); (5, 4)] (Some (1, 1))) (1, 1))
    as (Hd & _ & Ht); try reflexivity.
  - discriminate.
  - split; [exact Hd | exact Ht].
Defined.

(** A heading that is a direction, on a body with a gap: the head is
    drawn, and the exception leaves [draw] at the second part. *)
Example draw_trace_keeps_the_calls :
  draw game10 sign_normalize (still_snake gap_body (Some UP))
  = Raise KeyError /\
  draw_trace game10 sign_normalize (still_snake gap_body (Some UP))
  = ([((2, 5), mkRect 0 0 10 10)], Some KeyError).
Proof. repeat split. Qed.
